(** * LibJitsi native layer: DirectShow device manager and CoreAudio JNI bridge

    A shallow embedding of

    - [src/native/windows/directshow/DSManager.cpp] and [JavaLogger.h]
      (module [DirectShow] and module [JavaLogger]), and
    - [src/native/macosx/coreaudio/maccoreaudio_util.c] (module [CoreAudio]),

    together with the properties of the native/managed boundary that the
    specification states about them, and further properties of the same
    functions and of their neighbours in the three files.

    Everything outside the three files (COM, the JVM, the device backends)
    is an environment: its answers are data the functions consume, and every
    call that crosses the boundary is appended to a log of events, so that
    statements such as "released exactly once" or "registers exactly once"
    are statements about that log. *)

From Stdlib Require Import ZArith List String Bool Lia.
From Stdlib Require Import Strings.Byte.
Import ListNotations.
Local Open Scope string_scope.
Local Open Scope list_scope.
Local Open Scope Z_scope.

(** ** Counting events *)

(** Number of events of a log that satisfy a boolean test. *)
Definition count {E : Type} (p : E -> bool) (l : list E) : nat :=
  List.length (filter p l).

(* ===================================================================== *)
(** * DSManager.cpp *)
(* ===================================================================== *)

Module DirectShow.

(** ** COM vocabulary *)

(** An HRESULT is a signed 32-bit code; negative values are failures. *)
Definition HRESULT := Z.
Definition S_OK : HRESULT := 0.
Definition S_FALSE : HRESULT := 1.
Definition E_FAIL : HRESULT := -2147467259.        (* 0x80004005 *)
Definition E_NOINTERFACE : HRESULT := -2147467262. (* 0x80004002 *)

Definition SUCCEEDED (hr : HRESULT) : bool := 0 <=? hr.
Definition FAILED (hr : HRESULT) : bool := hr <? 0.

(** The reference-counted interfaces [initCaptureDevices] handles. *)
Inductive Interface :=
| ICreateDevEnum | IEnumMoniker | IMoniker
| IBaseFilter | IAMVfwCaptureDialogs | IPropertyBag.

Definition Interface_eqb (a b : Interface) : bool :=
  match a, b with
  | ICreateDevEnum, ICreateDevEnum | IEnumMoniker, IEnumMoniker
  | IMoniker, IMoniker | IBaseFilter, IBaseFilter
  | IAMVfwCaptureDialogs, IAMVfwCaptureDialogs
  | IPropertyBag, IPropertyBag => true
  | _, _ => false
  end.

(** A nullable interface pointer; [NULL] is 0. *)
Definition pointer := Z.
Definition NULL : pointer := 0.

Definition BSTR := string.

(** The levels of [JavaLogger]. *)
Inductive Level := debug | trace | info | warn | error.

(** Modelled from the spec: the class [DSCaptureDevice] (DSCaptureDevice.h
    and DSCaptureDevice.cpp are not among the sources).  The spec's
    CaptureDeviceRecord carries the identity pair (name, path); these are the
    two arguments of the constructor call in [initCaptureDevices]. *)
Record DSCaptureDevice := {
  dev_name : BSTR;
  dev_path : BSTR
}.

(** ** The environment of one enumeration *)

(** What COM answers for one candidate, i.e. for one moniker handed out by
    [monikerEnum->Next].  An out-parameter that the source dereferences
    without a test after a successful call ([moniker], [cp], [propertyBag])
    is a [positive], a non-null pointer, as the COM contract promises; the
    out-parameter [vfw], which the source does test, is a nullable
    [pointer].  Out-parameters of failed calls are never looked at. *)
Record Moniker := {
  moniker : positive;
  BindToObject : HRESULT * positive;       (* IID_IBaseFilter, into cp *)
  QueryInterface : HRESULT * pointer;      (* IID_IAMVfwCaptureDialogs, into vfw *)
  BindToStorage : HRESULT * positive;      (* IID_IPropertyBag, into propertyBag *)
  Read_FriendlyName : HRESULT * BSTR;
  Read_DevicePath : HRESULT * BSTR;
  new_DSCaptureDevice : bool;              (* whether operator new yields an object *)
  initDevice : HRESULT                     (* captureDevice->initDevice(moniker) *)
}.

Record ComEnv := {
  CoInitializeEx : HRESULT;
  CoCreateInstance : HRESULT * positive;       (* into devEnum *)
  CreateClassEnumerator : HRESULT * positive;  (* into monikerEnum *)
  (** The monikers for which [monikerEnum->Next] answers S_OK, in order;
      the next answer is not S_OK and ends the loop. *)
  Next : list Moniker
}.

(** ** State and events *)

Inductive Event :=
| Log (level : Level) (format : string)
| EvCoInitializeEx (hr : HRESULT)
| EvCoUninitialize
| Acquire (i : Interface) (p : pointer)   (* a call stored one reference *)
| Release (i : Interface) (p : pointer)   (* p->Release() *)
| New (d : DSCaptureDevice)
| InitDevice (d : DSCaptureDevice) (mk : pointer) (hr : HRESULT)
| Delete (d : DSCaptureDevice).

(** The two data members of [DSManager] and the log of what it did, oldest
    event first. *)
Record State := {
  m_devices : list DSCaptureDevice;
  _coUninitialize : bool;
  events : list Event
}.

Definition emit (e : Event) (s : State) : State :=
  {| m_devices := m_devices s;
     _coUninitialize := _coUninitialize s;
     events := events s ++ [e] |}.

Definition log (l : Level) (format : string) : State -> State :=
  emit (Log l format).

Definition acquire (i : Interface) (p : positive) : State -> State :=
  emit (Acquire i (Z.pos p)).

Definition release (i : Interface) (p : pointer) : State -> State :=
  emit (Release i p).

Definition push_back (d : DSCaptureDevice) (s : State) : State :=
  {| m_devices := m_devices s ++ [d];
     _coUninitialize := _coUninitialize s;
     events := events s |}.

Definition clear (s : State) : State :=
  {| m_devices := [];
     _coUninitialize := _coUninitialize s;
     events := events s |}.

Definition set_coUninitialize (b : bool) (s : State) : State :=
  {| m_devices := m_devices s;
     _coUninitialize := b;
     events := events s |}.

(** [for (it = m_devices.begin(); it != m_devices.end(); ++it) delete *it;] *)
Definition delete_each (s : State) : State :=
  fold_left (fun s d => emit (Delete d) s) (m_devices s) s.

(** ** DSManager::initCaptureDevices *)

(** Lines 79-85: the clean-up in case of reinitialization. *)
Definition cleanup (s : State) : State :=
  if (0 <? Z.of_nat (List.length (m_devices s)))
  then clear (delete_each s)
  else s.

(** Lines 120-149: the probe for the Video-for-Windows capture dialogs.
    The boolean is [true] when the iteration is left by [continue]. *)
Definition vfw_probe (mk : Moniker) (s : State) : bool * State :=
  let '(btoRes, cp) := BindToObject mk in
  if FAILED btoRes then
    (false, log debug "BindToObject Failed: 0x%x" s)
  else
    let s := acquire IBaseFilter cp s in
    let s := log debug "BindToObject Succeeded" s in
    let '(qiRes, vfw) := QueryInterface mk in
    if FAILED qiRes then
      (false, log debug "QueryInterface Failed: 0x%x" s)
    else
      let s := if vfw =? NULL then s else emit (Acquire IAMVfwCaptureDialogs vfw) s in
      let s := log debug "QueryInterface Succeeded" s in
      if negb (vfw =? NULL) then
        let s := log debug "vfw was true" s in
        let s := release IAMVfwCaptureDialogs vfw s in
        let s := release IBaseFilter (Z.pos cp) s in
        (true, s)
      else (false, s).

(** Lines 189-208: construction and initialization of the record. *)
Definition create_device (mk : Moniker) (name path : BSTR) (s : State) : State :=
  let captureDevice := {| dev_name := name; dev_path := path |} in
  if new_DSCaptureDevice mk then
    let s := emit (New captureDevice) s in
    let idRes := initDevice mk in
    let s := emit (InitDevice captureDevice (Z.pos (moniker mk)) idRes) s in
    if SUCCEEDED idRes then
      let s := log debug "captureDevice created successfully" s in
      push_back captureDevice s
    else
      let s := log error "Failed to initialize capture device: 0x%x" s in
      emit (Delete captureDevice) s
  else
    log error "Failed to create DSCaptureDevice object" s.

(** Lines 151-214: the properties of the device.  The boolean is [true]
    when the iteration is left by [continue].  ([VariantInit] and
    [VariantClear] act on the two VARIANTs only and are left out.) *)
Definition read_properties (mk : Moniker) (s : State) : bool * State :=
  let '(ret, propertyBag) := BindToStorage mk in
  if FAILED ret then
    (false, log error "BindToStorage failed: 0x%x" s)
  else
    let s := acquire IPropertyBag propertyBag s in
    let s := log debug "BindToStorage succeeded" s in
    let '(ret, name) := Read_FriendlyName mk in
    if FAILED ret then
      let s := log error "Failed to get friendly name for device: 0x%x" s in
      let s := release IPropertyBag (Z.pos propertyBag) s in
      let s := release IMoniker (Z.pos (moniker mk)) s in
      (true, s)
    else
      let '(ret, path) := Read_DevicePath mk in
      if FAILED ret then
        let s := log error "Failed to get path for device: 0x%x" s in
        let s := release IPropertyBag (Z.pos propertyBag) s in
        let s := release IMoniker (Z.pos (moniker mk)) s in
        (true, s)
      else
        let s := log debug "Found device with name: %S and path: %S\n" s in
        let s := create_device mk name path s in
        let s := release IPropertyBag (Z.pos propertyBag) s in
        (false, s).

(** Lines 116-216: one iteration of the [while] loop, for the moniker that
    [Next] has just stored. *)
Definition loop_body (s : State) (mk : Moniker) : State :=
  let s := acquire IMoniker (moniker mk) s in
  let '(continue, s) := vfw_probe mk s in
  if continue then s else
  let '(continue, s) := read_properties mk s in
  if continue then s else
  release IMoniker (Z.pos (moniker mk)) s.

(** Lines 87-221: the enumeration proper. *)
Definition enumerate (env : ComEnv) (s : State) : State :=
  let '(ret, devEnum) := CoCreateInstance env in
  if FAILED ret then
    log error "CoCreateInstance failed: 0x%x" s
  else
    let s := acquire ICreateDevEnum devEnum s in
    let '(ret, monikerEnum) := CreateClassEnumerator env in
    if FAILED ret || (ret =? S_FALSE) then
      let s := log error "CreateClassEnumerator failed: 0x%x" s in
      release ICreateDevEnum (Z.pos devEnum) s
    else
      let s := acquire IEnumMoniker monikerEnum s in
      let s := fold_left loop_body (Next env) s in
      let s := release IEnumMoniker (Z.pos monikerEnum) s in
      release ICreateDevEnum (Z.pos devEnum) s.

Definition initCaptureDevices (env : ComEnv) (s : State) : State :=
  enumerate env (cleanup s).

(** ** Constructor, destructor, accessor *)

(** [DSManager::DSManager].  [m_devices] is default-constructed empty;
    [_coUninitialize] has no initial value until the last statement, so
    whatever the memory held is a parameter. *)
Definition DSManager_new (env : ComEnv) (indeterminate : bool) : State :=
  let s := {| m_devices := []; _coUninitialize := indeterminate; events := [] |} in
  let hr := CoInitializeEx env in
  let s := emit (EvCoInitializeEx hr) s in
  let s :=
    if SUCCEEDED hr then
      let s := log debug "CoInitializeEx succeeded" s in
      initCaptureDevices env s
    else
      log error "CoInitializeEx failed: 0x%x" s in
  set_coUninitialize false s.

(** [DSManager::~DSManager]. *)
Definition DSManager_delete (s : State) : State :=
  let s := delete_each s in
  let s := clear s in
  if _coUninitialize s then emit EvCoUninitialize s else s.

Definition getDevices (s : State) : list DSCaptureDevice := m_devices s.

(** ** Vocabulary of the specification *)

(** A manager state with an empty list and an empty log. *)
Definition fresh (flag : bool) : State :=
  {| m_devices := []; _coUninitialize := flag; events := [] |}.

Definition is_Acquire (i : Interface) (p : pointer) (e : Event) : bool :=
  match e with
  | Acquire j q => Interface_eqb i j && (p =? q)
  | _ => false
  end.

Definition is_Release (i : Interface) (p : pointer) (e : Event) : bool :=
  match e with
  | Release j q => Interface_eqb i j && (p =? q)
  | _ => false
  end.

Definition is_CoUninitialize (e : Event) : bool :=
  match e with EvCoUninitialize => true | _ => false end.

(** How many references to [p] a log took, and how many it gave back. *)
Definition acquired (i : Interface) (p : pointer) (l : list Event) : nat :=
  count (is_Acquire i p) l.
Definition released (i : Interface) (p : pointer) (l : list Event) : nat :=
  count (is_Release i p) l.

(** The same, for all pointers of one interface together. *)
Definition acquisitions (i : Interface) (l : list Event) : nat :=
  count (fun e => match e with
                  | Acquire j _ => Interface_eqb i j
                  | _ => false
                  end) l.
Definition releases (i : Interface) (l : list Event) : nat :=
  count (fun e => match e with
                  | Release j _ => Interface_eqb i j
                  | _ => false
                  end) l.

(** Section 4.1: every acquired handle is released exactly once. *)
Definition released_exactly_once (l : list Event) : Prop :=
  forall i p, released i p l = acquired i p l.

(** Section 4.2, step 1: the category enumerator could be obtained. *)
Definition enumerator_available (env : ComEnv) : bool :=
  SUCCEEDED (fst (CoCreateInstance env))
  && SUCCEEDED (fst (CreateClassEnumerator env))
  && negb (fst (CreateClassEnumerator env) =? S_FALSE).

(** Section 4.2, step 3: the candidate exposes the legacy capture dialogs. *)
Definition legacy_capture_dialogs (mk : Moniker) : bool :=
  SUCCEEDED (fst (BindToObject mk))
  && SUCCEEDED (fst (QueryInterface mk))
  && negb (snd (QueryInterface mk) =? NULL).

(** Section 4.2, step 4: friendly name and device path both read. *)
Definition properties_read (mk : Moniker) : bool :=
  SUCCEEDED (fst (BindToStorage mk))
  && SUCCEEDED (fst (Read_FriendlyName mk))
  && SUCCEEDED (fst (Read_DevicePath mk)).

(** Section 4.2, step 5: the record is built and its binding initializes. *)
Definition binding_initialized (mk : Moniker) : bool :=
  new_DSCaptureDevice mk && SUCCEEDED (initDevice mk).

Definition usable (mk : Moniker) : bool :=
  negb (legacy_capture_dialogs mk) && properties_read mk
  && binding_initialized mk.

Definition record_of (mk : Moniker) : DSCaptureDevice :=
  {| dev_name := snd (Read_FriendlyName mk);
     dev_path := snd (Read_DevicePath mk) |}.

(** ** Framing

    What a function does to a state is what it does to a fresh state,
    appended to what the state held. *)

Definition extend (s d : State) : State :=
  {| m_devices := m_devices s ++ m_devices d;
     _coUninitialize := _coUninitialize s;
     events := events s ++ events d |}.

Definition framed (f : State -> State) : Prop :=
  forall s, f s = extend s (f (fresh false)).

(** The events one candidate contributes to the log. *)
Definition body_events (mk : Moniker) : list Event :=
  events (loop_body (fresh false) mk).

(** ** Sample environments *)

(** An ordinary camera: it binds to a base filter that does not implement
    the capture dialogs, and everything else succeeds. *)
Definition webcam (p : positive) (name path : BSTR) : Moniker :=
  {| moniker := p;
     BindToObject := (S_OK, (p + 1)%positive);
     QueryInterface := (E_NOINTERFACE, NULL);
     BindToStorage := (S_OK, (p + 2)%positive);
     Read_FriendlyName := (S_OK, name);
     Read_DevicePath := (S_OK, path);
     new_DSCaptureDevice := true;
     initDevice := S_OK |}.

(** A Video-for-Windows device: its filter implements the capture dialogs. *)
Definition vfw_device (p : positive) (name path : BSTR) : Moniker :=
  {| moniker := p;
     BindToObject := (S_OK, (p + 1)%positive);
     QueryInterface := (S_OK, Z.pos (p + 3));
     BindToStorage := (S_OK, (p + 2)%positive);
     Read_FriendlyName := (S_OK, name);
     Read_DevicePath := (S_OK, path);
     new_DSCaptureDevice := true;
     initDevice := S_OK |}.

Definition system_with (candidates : list Moniker) : ComEnv :=
  {| CoInitializeEx := S_OK;
     CoCreateInstance := (S_OK, 1%positive);
     CreateClassEnumerator := (S_OK, 2%positive);
     Next := candidates |}.

Definition legacy_only : ComEnv :=
  system_with [vfw_device 10 "VfW capture" "vfw0"].

Definition webcam_only : ComEnv :=
  system_with [webcam 10 "Front camera" "usb#vid_1"].

Definition one_legacy_two_normal : ComEnv :=
  system_with [webcam 10 "Front camera" "usb#vid_1";
               vfw_device 20 "VfW capture" "vfw0";
               webcam 30 "Rear camera" "usb#vid_2"].

(** ** Further vocabulary: records, log lines, the life of a manager *)

(** The constructions and the destructions of the records that satisfy
    [p], in a log. *)
Definition is_New (p : DSCaptureDevice -> bool) (e : Event) : bool :=
  match e with New d => p d | _ => false end.
Definition is_Delete (p : DSCaptureDevice -> bool) (e : Event) : bool :=
  match e with Delete d => p d | _ => false end.

(** A line written through [logger->error]. *)
Definition is_error (e : Event) : bool :=
  match e with Log error _ => true | _ => false end.

(** A candidate that is dropped because a step failed: it is not a legacy
    device, and its properties could not be read or its record could not
    be built and initialized. *)
Definition failed_candidate (mk : Moniker) : bool :=
  negb (legacy_capture_dialogs mk)
  && negb (properties_read mk && binding_initialized mk).

(** Calls of [initCaptureDevices] one after the other, each in the system
    as it is at that moment. *)
Definition reinitialize (envs : list ComEnv) (s : State) : State :=
  fold_left (fun s env => initCaptureDevices env s) envs s.

(** A manager from its construction, through any number of
    reinitializations, to its destruction. *)
Definition lifetime (env : ComEnv) (indeterminate : bool)
    (envs : list ComEnv) : State :=
  DSManager_delete (reinitialize envs (DSManager_new env indeterminate)).

(** A camera whose friendly name cannot be read. *)
Definition nameless_camera (p : positive) : Moniker :=
  {| moniker := p;
     BindToObject := (S_OK, (p + 1)%positive);
     QueryInterface := (E_NOINTERFACE, NULL);
     BindToStorage := (S_OK, (p + 2)%positive);
     Read_FriendlyName := (E_FAIL, EmptyString);
     Read_DevicePath := (S_OK, "usb#vid_3");
     new_DSCaptureDevice := true;
     initDevice := S_OK |}.

(** A system without the system device enumerator. *)
Definition no_enumerator : ComEnv :=
  {| CoInitializeEx := S_OK;
     CoCreateInstance := (E_FAIL, 1%positive);
     CreateClassEnumerator := (S_OK, 2%positive);
     Next := [] |}.

(** A system whose video input category is empty. *)
Definition empty_category : ComEnv :=
  {| CoInitializeEx := S_OK;
     CoCreateInstance := (S_OK, 1%positive);
     CreateClassEnumerator := (S_FALSE, 2%positive);
     Next := [] |}.

(** The interfaces whose references [initCaptureDevices] gives back on
    every path: all but the moniker and the base filter. *)
Definition balanced_interface (i : Interface) : bool :=
  match i with
  | IMoniker | IBaseFilter => false
  | _ => true
  end.

(** The records whose [initDevice] call succeeded, in the order of the
    calls. *)
Definition initialized (l : list Event) : list DSCaptureDevice :=
  flat_map (fun e => match e with
                     | InitDevice d _ hr => if SUCCEEDED hr then [d] else []
                     | _ => []
                     end) l.

(** The invariant of the manager: the records constructed and not yet
    deleted are the records of the list. *)
Definition records_accounted (p : DSCaptureDevice -> bool) (s : State) : Prop :=
  count (is_New p) (events s)
  = (count (is_Delete p) (events s) + count p (m_devices s))%nat.

(** A candidate whose base filter was bound and which is not a legacy
    device: the probe of lines 120-149 falls through with [cp] in hand. *)
Definition filter_kept (mk : Moniker) : bool :=
  SUCCEEDED (fst (BindToObject mk)) && negb (legacy_capture_dialogs mk).

End DirectShow.

(* ===================================================================== *)
(** * JavaLogger.h *)
(* ===================================================================== *)

Module JavaLogger.

Definition jobject := Z.
Definition jclass := Z.
Definition jmethodID := Z.

(** The answers of the JVM to the two look-ups of [log]; 0 is "not found". *)
Record JNIEnv := {
  GetObjectClass : jobject -> jclass;
  GetMethodID : jclass -> string -> string -> jmethodID
}.

(** What one call of [log] does, oldest first. *)
Inductive Output :=
| Stderr (text : string)
| CallVoidMethod (obj : jobject) (mid : jmethodID) (message : string).

(** [JavaLogger::log(level, message)]; [logger] is the data member. *)
Definition log (env : JNIEnv) (logger : jobject) (level message : string)
  : list Output :=
  let cls := GetObjectClass env logger in
  if cls =? 0 then
    [Stderr "Failed to find class for JavaLogger \n"; Stderr message]
  else
    let mid := GetMethodID env cls level "(Ljava/lang/Object;)V" in
    if mid =? 0 then
      [Stderr "Failed to find method for JavaLogger with level: %s \n";
       Stderr message]
    else
      [CallVoidMethod logger mid message].

Definition is_call (o : Output) : bool :=
  match o with CallVoidMethod _ _ _ => true | Stderr _ => false end.

Definition is_null_call (o : Output) : bool :=
  match o with CallVoidMethod _ mid _ => mid =? 0 | Stderr _ => false end.

(** ** The level methods

    [expansion] is the printf expansion of the format with its arguments. *)

(** The characters of a C string stored in [s]: those before the first
    NUL. *)
Fixpoint c_str (s : string) : string :=
  match s with
  | EmptyString => EmptyString
  | String c r => if Ascii.eqb c Ascii.zero then EmptyString
                  else String c (c_str r)
  end.

(** [vsnprintf(buffer, size, message, args)]: at most [size - 1]
    characters are stored before the terminating NUL. *)
Definition vsnprintf (size : nat) (expansion : string) : string :=
  substring 0 (size - 1) (c_str expansion).

Definition debug (env : JNIEnv) (logger : jobject) (expansion : string)
  : list Output :=
  let buffer := vsnprintf 255 expansion in
  log env logger "debug" buffer.

Definition trace (env : JNIEnv) (logger : jobject) (expansion : string)
  : list Output :=
  let buffer := vsnprintf 255 expansion in
  log env logger "trace" buffer.

Definition info (env : JNIEnv) (logger : jobject) (expansion : string)
  : list Output :=
  let buffer := vsnprintf 255 expansion in
  log env logger "info" buffer.

Definition warn (env : JNIEnv) (logger : jobject) (expansion : string)
  : list Output :=
  let buffer := vsnprintf 255 expansion in
  log env logger "warn" buffer.

Definition error (env : JNIEnv) (logger : jobject) (expansion : string)
  : list Output :=
  let buffer := vsnprintf 255 expansion in
  log env logger "error" buffer.

(** The five public methods. *)
Definition level_methods
  : list (string * (JNIEnv -> jobject -> string -> list Output)) :=
  [("debug", debug); ("trace", trace); ("info", info); ("warn", warn);
   ("error", error)].

(** The message of a call into Java. *)
Definition message_of (o : Output) : option string :=
  match o with CallVoidMethod _ _ m => Some m | Stderr _ => None end.

(** A JVM in which the logger has a class, with a method for each name. *)
Definition logging : JNIEnv :=
  {| GetObjectClass := fun _ => 7;
     GetMethodID := fun _ name _ => Z.of_nat (String.length name) |}.

End JavaLogger.

(* ===================================================================== *)
(** * maccoreaudio_util.c *)
(* ===================================================================== *)

Module CoreAudio.

(** ** JNI vocabulary *)

Definition JNI_OK : Z := 0.
Definition JNI_EDETACHED : Z := -2.
Definition JNI_EVERSION : Z := -3.
Definition JNI_VERSION_1_6 : Z := 65542.   (* 0x00010006 *)

(** References and identifiers are machine words; [NULL] is 0. *)
Definition jobject := Z.
Definition jclass := Z.
Definition jmethodID := Z.
Definition NULL : Z := 0.

(** A local reference to a Java byte array, with its contents; [None] is
    the null reference. *)
Definition jbyteArray := option (list byte).

(** Every call that leaves the file, oldest first in the log. *)
Inductive Event :=
| EvGetEnv (res : Z)
| EvAttachCurrentThreadAsDaemon (res : Z)
| EvDetachCurrentThread
| EvFindClass (name : string) (res : jclass)
| EvNewGlobalRef (obj res : jobject)
| EvDeleteGlobalRef (obj : jobject)
| EvGetStaticMethodID (clazz : jclass) (name sig : string) (res : jmethodID)
| EvNewByteArray (len : Z) (allocated : bool)
| EvCallVoidMethod (obj : jobject) (mid : jmethodID)
                   (bufferBytes : list byte) (len : Z)
| EvCallStaticVoidMethod (clazz : jclass) (mid : jmethodID)
                         (arg : option (list byte))
| EvInitializeHotplug      (* MacCoreaudio_initializeHotplug, device.c *)
| EvUninitializeHotplug.   (* MacCoreaudio_uninitializeHotplug, device.c *)

(** The JVM as the file sees it.  Every answer may depend on everything
    that happened before (the log), so an answer may differ from one call
    to the next.  Java code that runs during a call is seen through what
    it leaves in the array it is handed; it does not detach the calling
    thread and does not call back into this file.  Pending Java exceptions
    are not modelled. *)
Record JVM := {
  supports_JNI_1_6 : bool;
  attach : list Event -> Z;
  find_class : list Event -> string -> jclass;
  new_global_ref : list Event -> jobject -> jobject;
  get_static_method_id : list Event -> jclass -> string -> string -> jmethodID;
  new_byte_array : list Event -> Z -> bool;
  get_byte_array_elements : list Event -> bool;
  (** What the Java method leaves in the array it is handed. *)
  java_callback :
    list Event -> jobject -> jmethodID -> list byte -> Z -> list byte
}.

(** The three file-level statics, the attachment of the current native
    thread to the JVM, and the log. *)
Record World := {
  MacCoreaudio_VM : Z;
  MacCoreaudio_devicesChangedCallbackClass : jclass;
  MacCoreaudio_devicesChangedCallbackMethodID : jmethodID;
  thread_attached : bool;
  trace : list Event
}.

(** ** A state monad with faults

    A computation either yields a value or faults (undefined behaviour:
    a null pointer is dereferenced, the JVM is handed a null identifier);
    the world reached is kept in both cases. *)
Definition M (A : Type) : Type := World -> option A * World.

Definition ret {A} (a : A) : M A := fun w => (Some a, w).

Definition bind {A B} (m : M A) (k : A -> M B) : M B :=
  fun w =>
    match m w with
    | (Some a, w') => k a w'
    | (None, w') => (None, w')
    end.

Definition fault {A} : M A := fun w => (None, w).

Declare Scope m_scope.
Delimit Scope m_scope with m.
Notation "x <- m ;; k" := (bind m (fun x => k))
  (at level 61, m at next level, right associativity) : m_scope.
Notation "' p <- m ;; k" := (bind m (fun x => let 'p := x in k))
  (at level 61, p pattern, m at next level, right associativity) : m_scope.
Notation "m ;; k" := (bind m (fun _ => k))
  (at level 61, right associativity) : m_scope.
Local Open Scope m_scope.

Definition gets {A} (f : World -> A) : M A := fun w => (Some (f w), w).

Definition set_trace (t : list Event) (w : World) : World :=
  {| MacCoreaudio_VM := MacCoreaudio_VM w;
     MacCoreaudio_devicesChangedCallbackClass :=
       MacCoreaudio_devicesChangedCallbackClass w;
     MacCoreaudio_devicesChangedCallbackMethodID :=
       MacCoreaudio_devicesChangedCallbackMethodID w;
     thread_attached := thread_attached w;
     trace := t |}.

Definition set_thread_attached (b : bool) (w : World) : World :=
  {| MacCoreaudio_VM := MacCoreaudio_VM w;
     MacCoreaudio_devicesChangedCallbackClass :=
       MacCoreaudio_devicesChangedCallbackClass w;
     MacCoreaudio_devicesChangedCallbackMethodID :=
       MacCoreaudio_devicesChangedCallbackMethodID w;
     thread_attached := b;
     trace := trace w |}.

Definition set_VM (vm : Z) : M unit := fun w =>
  (Some tt,
   {| MacCoreaudio_VM := vm;
      MacCoreaudio_devicesChangedCallbackClass :=
        MacCoreaudio_devicesChangedCallbackClass w;
      MacCoreaudio_devicesChangedCallbackMethodID :=
        MacCoreaudio_devicesChangedCallbackMethodID w;
      thread_attached := thread_attached w;
      trace := trace w |}).

Definition set_devicesChangedCallbackClass (c : jclass) : M unit := fun w =>
  (Some tt,
   {| MacCoreaudio_VM := MacCoreaudio_VM w;
      MacCoreaudio_devicesChangedCallbackClass := c;
      MacCoreaudio_devicesChangedCallbackMethodID :=
        MacCoreaudio_devicesChangedCallbackMethodID w;
      thread_attached := thread_attached w;
      trace := trace w |}).

Definition set_devicesChangedCallbackMethodID (m : jmethodID) : M unit := fun w =>
  (Some tt,
   {| MacCoreaudio_VM := MacCoreaudio_VM w;
      MacCoreaudio_devicesChangedCallbackClass :=
        MacCoreaudio_devicesChangedCallbackClass w;
      MacCoreaudio_devicesChangedCallbackMethodID := m;
      thread_attached := thread_attached w;
      trace := trace w |}).

Definition emit (e : Event) : M unit := fun w =>
  (Some tt, set_trace (trace w ++ [e]) w).

(** ** C library *)

(** The bytes of a C string stored in [l]: those before the first NUL. *)
Fixpoint c_str (l : list byte) : list byte :=
  match l with
  | [] => []
  | b :: r => if Byte.eqb b x00 then [] else b :: c_str r
  end.

(** [vsnprintf(error, size, ...)], given the full expansion of the format:
    at most [size - 1] bytes are stored before the terminating NUL. *)
Definition vsnprintf (size : nat) (expansion : list byte) : list byte :=
  firstn (size - 1) (c_str expansion).

(** [memcpy(dst, src, n)] into a buffer holding [dst]; reading or writing
    past either end is a fault. *)
Definition memcpy (dst src : list byte) (n : Z) : M (list byte) :=
  if (n <? 0) || (Z.of_nat (List.length dst) <? n)
     || (Z.of_nat (List.length src) <? n)
  then fault
  else ret (firstn (Z.to_nat n) src ++ skipn (Z.to_nat n) dst).

(** ** The JNI calls the file makes *)

Section WithJVM.
Variable jvm : JVM.

(** [GetEnv(MacCoreaudio_VM, &env, JNI_VERSION_1_6)], called through the
    global [MacCoreaudio_VM], as are the next two. *)
Definition GetEnv : M Z := fun w =>
  if MacCoreaudio_VM w =? NULL then fault w else
  let res :=
    if thread_attached w
    then (if supports_JNI_1_6 jvm then JNI_OK else JNI_EVERSION)
    else JNI_EDETACHED in
  (Some res, set_trace (trace w ++ [EvGetEnv res]) w).

Definition AttachCurrentThreadAsDaemon : M Z := fun w =>
  if MacCoreaudio_VM w =? NULL then fault w else
  let res := attach jvm (trace w) in
  (Some res,
   set_trace (trace w ++ [EvAttachCurrentThreadAsDaemon res])
     (set_thread_attached (thread_attached w || (res =? 0)) w)).

Definition DetachCurrentThread : M unit := fun w =>
  if MacCoreaudio_VM w =? NULL then fault w else
  (Some tt,
   set_trace (trace w ++ [EvDetachCurrentThread])
     (set_thread_attached false w)).

Definition FindClass (name : string) : M jclass := fun w =>
  let res := find_class jvm (trace w) name in
  (Some res, set_trace (trace w ++ [EvFindClass name res]) w).

Definition NewGlobalRef (obj : jobject) : M jobject := fun w =>
  let res := new_global_ref jvm (trace w) obj in
  (Some res, set_trace (trace w ++ [EvNewGlobalRef obj res]) w).

Definition DeleteGlobalRef (obj : jobject) : M unit :=
  emit (EvDeleteGlobalRef obj).

Definition GetStaticMethodID (clazz : jclass) (name sig : string)
  : M jmethodID := fun w =>
  if clazz =? NULL then fault w else
  let res := get_static_method_id jvm (trace w) clazz name sig in
  (Some res, set_trace (trace w ++ [EvGetStaticMethodID clazz name sig res]) w).

(** A new array is zero-filled; a negative length or an exhausted heap
    gives the null reference. *)
Definition NewByteArray (len : Z) : M jbyteArray := fun w =>
  let allocated := (0 <=? len) && new_byte_array jvm (trace w) len in
  (Some (if allocated then Some (repeat x00 (Z.to_nat len)) else None),
   set_trace (trace w ++ [EvNewByteArray len allocated]) w).

(** [SetByteArrayRegion(env, array, start, len, buf)]: a null array or a
    read past the end of [buf] is a fault; a region outside the array
    raises in Java and copies nothing. *)
Definition SetByteArrayRegion (array : jbyteArray) (start len : Z)
    (buf : list byte) : M (list byte) :=
  match array with
  | None => fault
  | Some a =>
      if (start <? 0) || (len <? 0)
         || (Z.of_nat (List.length a) <? start + len)
      then ret a
      else if Z.of_nat (List.length buf) <? len then fault
      else ret (firstn (Z.to_nat start) a
                  ++ firstn (Z.to_nat len) buf
                  ++ skipn (Z.to_nat (start + len)) a)
  end.

(** [GetByteArrayElements(env, array, NULL)]; the null pointer it gives
    when memory is exhausted is [None]. *)
Definition GetByteArrayElements (array : list byte) : M (option (list byte)) :=
  fun w =>
    if get_byte_array_elements jvm (trace w) then (Some (Some array), w)
    else (Some None, w).

(** [CallVoidMethod(env, obj, mid, bufferBytes, len)]: the Java method runs
    on the array and may write into it. *)
Definition CallVoidMethod (obj : jobject) (mid : jmethodID)
    (bufferBytes : list byte) (len : Z) : M (list byte) := fun w =>
  let w' := set_trace (trace w ++ [EvCallVoidMethod obj mid bufferBytes len]) w in
  if (obj =? NULL) || (mid =? NULL) then fault w'
  else (Some (java_callback jvm (trace w) obj mid bufferBytes len), w').

(** [CallStaticVoidMethod(env, clazz, mid, ...)]. *)
Definition CallStaticVoidMethod (clazz : jclass) (mid : jmethodID)
    (arg : option (list byte)) : M unit := fun w =>
  let w' := set_trace (trace w ++ [EvCallStaticVoidMethod clazz mid arg]) w in
  if (clazz =? NULL) || (mid =? NULL) then fault w'
  else (Some tt, w').

(** The two entry points of device.c. *)
Definition MacCoreaudio_initializeHotplug : M unit := emit EvInitializeHotplug.
Definition MacCoreaudio_uninitializeHotplug : M unit := emit EvUninitializeHotplug.

(** ** The macros ATTACH and DETACH *)

(** [ATTACH()] leaves the two flags [envAttached] and [shouldDetach]. *)
Definition ATTACH : M (bool * bool) :=
  getEnvRes <- GetEnv ;;
  if getEnvRes =? JNI_EDETACHED then
    res <- AttachCurrentThreadAsDaemon ;;
    if res =? 0 then ret (true, true) else ret (false, false)
  else if getEnvRes =? JNI_OK then ret (true, false)
  else ret (false, false).

Definition DETACH (shouldDetach : bool) : M unit :=
  if shouldDetach then DetachCurrentThread else ret tt.

(** ** MacCoreaudio_log

    [expansion] is the printf expansion of [error_format] with its
    arguments. *)
Definition MacCoreaudio_log (expansion : list byte) : M unit :=
  '(envAttached, shouldDetach) <- ATTACH ;;
  if negb envAttached then ret tt else
  clazz <- FindClass "org/jitsi/impl/neomedia/device/CoreAudioDevice" ;;
  (if negb (clazz =? NULL) then
     methodID <- GetStaticMethodID clazz "log" "([B)V" ;;
     let error := vsnprintf 2048 expansion in
     let str_len := Z.of_nat (List.length error) in
     bufferBytes <- NewByteArray str_len ;;
     bufferBytes <- SetByteArrayRegion bufferBytes 0 str_len error ;;
     CallStaticVoidMethod clazz methodID (Some bufferBytes)
   else ret tt) ;;
  DETACH shouldDetach.

Definition log_literal (s : string) : M unit :=
  MacCoreaudio_log (list_byte_of_string s).

(** ** MacCoreaudio_callbackMethod

    The result is the content of the native buffer [buffer] on return. *)
Definition MacCoreaudio_callbackMethod (buffer : list byte) (bufferLength : Z)
    (callback : jobject) (callbackMethod : jmethodID) : M (list byte) :=
  '(envAttached, shouldDetach) <- ATTACH ;;
  if negb envAttached then ret buffer else
  bufferBytes <- NewByteArray bufferLength ;;
  bufferBytes <- SetByteArrayRegion bufferBytes 0 bufferLength buffer ;;
  bufferBytes <- CallVoidMethod callback callbackMethod bufferBytes bufferLength ;;
  bytes <- GetByteArrayElements bufferBytes ;;
  match bytes with
  | None => fault
  | Some bytes =>
      buffer <- memcpy buffer bytes bufferLength ;;
      DETACH shouldDetach ;;
      ret buffer
  end.

(** ** MacCoreaudio_devicesChangedCallbackMethod *)
Definition MacCoreaudio_devicesChangedCallbackMethod : M unit :=
  log_literal "MacCoreAudio_util_devicesChangedCallbackMethod: Notified that devices have changed" ;;
  '(envAttached, shouldDetach) <- ATTACH ;;
  if negb envAttached then ret tt else
  class <- gets MacCoreaudio_devicesChangedCallbackClass ;;
  methodID <- gets MacCoreaudio_devicesChangedCallbackMethodID ;;
  (if negb (class =? NULL) && negb (methodID =? NULL)
   then CallStaticVoidMethod class methodID None
   else ret tt) ;;
  DETACH shouldDetach.

(** ** MacCoreaudio_initHotplug *)
Definition MacCoreaudio_initHotplug : M unit :=
  log_literal "MacCoreAudio_util_initHotplug: Initializing device hotplug" ;;
  '(envAttached, shouldDetach) <- ATTACH ;;
  (if envAttached then
     class <- gets MacCoreaudio_devicesChangedCallbackClass ;;
     methodID <- gets MacCoreaudio_devicesChangedCallbackMethodID ;;
     if (class =? NULL) && (methodID =? NULL) then
       devicesChangedCallbackClass <-
         FindClass "org/jitsi/impl/neomedia/device/CoreAudioDevice" ;;
       if negb (devicesChangedCallbackClass =? NULL) then
         devicesChangedCallbackClass <- NewGlobalRef devicesChangedCallbackClass ;;
         if negb (devicesChangedCallbackClass =? NULL) then
           devicesChangedCallbackMethodID <-
             GetStaticMethodID devicesChangedCallbackClass
               "devicesChangedCallback" "()V" ;;
           if negb (devicesChangedCallbackMethodID =? NULL) then
             set_devicesChangedCallbackClass devicesChangedCallbackClass ;;
             set_devicesChangedCallbackMethodID devicesChangedCallbackMethodID ;;
             MacCoreaudio_initializeHotplug
           else ret tt
         else ret tt
       else ret tt
     else ret tt
   else ret tt) ;;
  DETACH shouldDetach.

(** ** MacCoreaudio_freeHotplug *)
Definition MacCoreaudio_freeHotplug : M unit :=
  log_literal "MacCoreAudio_util_freeHotplug: Freeing device hotplug callback process" ;;
  MacCoreaudio_uninitializeHotplug ;;
  '(envAttached, shouldDetach) <- ATTACH ;;
  (if negb envAttached then ret tt (* goto EXIT_LABEL *) else
     class <- gets MacCoreaudio_devicesChangedCallbackClass ;;
     DeleteGlobalRef class ;;
     DETACH shouldDetach) ;;
  (* EXIT_LABEL: *)
  set_devicesChangedCallbackClass NULL ;;
  set_devicesChangedCallbackMethodID NULL.

(** ** JNI_OnLoad and JNI_OnUnload *)
Definition JNI_OnLoad (vm : Z) : M Z :=
  set_VM vm ;;
  log_literal "MacCoreAudio_util: JNI loaded" ;;
  MacCoreaudio_initHotplug ;;
  ret JNI_VERSION_1_6.

Definition JNI_OnUnload : M unit :=
  log_literal "MacCoreAudio_util: JNI unloading" ;;
  MacCoreaudio_freeHotplug ;;
  set_VM NULL.

End WithJVM.

(** ** Vocabulary of the specification *)

Definition is_Detach (e : Event) : bool :=
  match e with EvDetachCurrentThread => true | _ => false end.

Definition is_Attach_ok (e : Event) : bool :=
  match e with EvAttachCurrentThreadAsDaemon res => res =? 0 | _ => false end.

(** A call into Java (through either call primitive). *)
Definition is_managed_call (e : Event) : bool :=
  match e with
  | EvCallVoidMethod _ _ _ _ | EvCallStaticVoidMethod _ _ _ => true
  | _ => false
  end.

(** A call into Java with a null method identifier. *)
Definition is_null_method_call (e : Event) : bool :=
  match e with
  | EvCallVoidMethod _ mid _ _ | EvCallStaticVoidMethod _ mid _ => mid =? NULL
  | _ => false
  end.

(** The registration with the native hotplug subsystem. *)
Definition is_registration (e : Event) : bool :=
  match e with EvInitializeHotplug => true | _ => false end.

(** The look-up of the static entry point of the hotplug target. *)
Definition is_target_resolution (e : Event) : bool :=
  match e with
  | EvGetStaticMethodID _ name _ _ => String.eqb name "devicesChangedCallback"
  | _ => false
  end.

(** The global reference taken on the class of the hotplug target. *)
Definition is_NewGlobalRef (e : Event) : bool :=
  match e with EvNewGlobalRef _ _ => true | _ => false end.

(** Every detach of a log is preceded, since the previous detach, by an
    attach that succeeded; [owned] tells whether one is pending. *)
Fixpoint detach_justified (owned : bool) (l : list Event) : bool :=
  match l with
  | [] => true
  | EvAttachCurrentThreadAsDaemon res :: l =>
      detach_justified (owned || (res =? 0)) l
  | EvDetachCurrentThread :: l => owned && detach_justified false l
  | _ :: l => detach_justified owned l
  end.

(** Section 4.4: a managed execution context can be obtained: the thread
    holds one, or attaching it succeeds. *)
Definition context_available (jvm : JVM) (w : World) : bool :=
  if thread_attached w then supports_JNI_1_6 jvm else attach jvm
    (trace w ++ [EvGetEnv JNI_EDETACHED]) =? 0.

(** The two hotplug statics are both null or both non-null. *)
Definition hotplug_consistent (w : World) : Prop :=
  MacCoreaudio_devicesChangedCallbackClass w = NULL
  <-> MacCoreaudio_devicesChangedCallbackMethodID w = NULL.

Definition hotplug_resolved (w : World) : Prop :=
  MacCoreaudio_devicesChangedCallbackClass w <> NULL
  /\ MacCoreaudio_devicesChangedCallbackMethodID w <> NULL.

(** ** The entry points of the module, and runs of them *)

(** The entry points of the file that cross into the JVM. *)
Inductive Crossing :=
| OnLoad (vm : positive)          (* JNI_OnLoad, with a valid JavaVM *)
| OnUnload                        (* JNI_OnUnload *)
| InitHotplug                     (* MacCoreaudio_initHotplug *)
| FreeHotplug                     (* MacCoreaudio_freeHotplug *)
| DevicesChanged                  (* the device-change event handler *)
| Relay (buffer : list byte) (bufferLength : Z)
        (callback : jobject) (callbackMethod : jmethodID)
| LogMessage (expansion : list byte).

Definition forget {A} (m : M A) : M unit := bind m (fun _ => ret tt).

Definition cross (jvm : JVM) (c : Crossing) : M unit :=
  match c with
  | OnLoad vm => forget (JNI_OnLoad jvm (Z.pos vm))
  | OnUnload => JNI_OnUnload jvm
  | InitHotplug => MacCoreaudio_initHotplug jvm
  | FreeHotplug => MacCoreaudio_freeHotplug jvm
  | DevicesChanged => MacCoreaudio_devicesChangedCallbackMethod jvm
  | Relay b n c m => forget (MacCoreaudio_callbackMethod jvm b n c m)
  | LogMessage e => MacCoreaudio_log jvm e
  end.

(** What happens to the module: an entry point is called, or the next
    call arrives on a native thread that is, or is not, attached. *)
Inductive Step :=
| Call (c : Crossing)
| OnThread (attached : bool).

Definition perform (jvm : JVM) (s : Step) : M unit :=
  match s with
  | Call c => cross jvm c
  | OnThread a => fun w => (Some tt, set_thread_attached a w)
  end.

(** A run stops at the first fault. *)
Fixpoint run (jvm : JVM) (steps : list Step) (w : World) : World :=
  match steps with
  | [] => w
  | s :: steps =>
      match perform jvm s w with
      | (Some _, w') => run jvm steps w'
      | (None, w') => w'
      end
  end.

(** The module before it is loaded. *)
Definition unloaded (attached : bool) : World :=
  {| MacCoreaudio_VM := NULL;
     MacCoreaudio_devicesChangedCallbackClass := NULL;
     MacCoreaudio_devicesChangedCallbackMethodID := NULL;
     thread_attached := attached;
     trace := [] |}.

(** ** A program logic for the fault monad, and summaries of calls

    [wp m Q w]: running [m] from [w] ends, with a value or with a fault,
    in a world that satisfies [Q]. *)

Definition wp {A} (m : M A) (Q : option A -> World -> Prop) (w : World)
  : Prop :=
  Q (fst (m w)) (snd (m w)).

(** The call went from [w] to [w'] and appended the events [l]: every
    detach is justified, and a thread that was attached is still attached
    and was never detached. *)
Record Effect (w w' : World) (l : list Event) : Prop := {
  eff_trace : trace w' = trace w ++ l;
  eff_justified : detach_justified false l = true;
  eff_attached :
    thread_attached w = true ->
    thread_attached w' = true /\ count is_Detach l = 0%nat
}.

Definition globals_kept (w w' : World) : Prop :=
  MacCoreaudio_devicesChangedCallbackClass w'
  = MacCoreaudio_devicesChangedCallbackClass w
  /\ MacCoreaudio_devicesChangedCallbackMethodID w'
     = MacCoreaudio_devicesChangedCallbackMethodID w.

Definition no_hotplug_events (l : list Event) : Prop :=
  count is_registration l = 0%nat
  /\ count is_target_resolution l = 0%nat
  /\ count is_NewGlobalRef l = 0%nat.

(** A call that leaves the statics alone. *)
Definition quiet (w w' : World) (l : list Event) : Prop :=
  Effect w w' l
  /\ MacCoreaudio_VM w' = MacCoreaudio_VM w
  /\ globals_kept w w'
  /\ no_hotplug_events l.

(** What [MacCoreaudio_initHotplug] may do to the hotplug statics. *)
Definition init_outcome (w w' : World) (l : list Event) : Prop :=
  Effect w w' l
  /\ MacCoreaudio_VM w' = MacCoreaudio_VM w
  /\ (hotplug_resolved w -> globals_kept w w' /\ no_hotplug_events l)
  /\ (MacCoreaudio_devicesChangedCallbackClass w = NULL ->
      MacCoreaudio_devicesChangedCallbackMethodID w = NULL ->
      (globals_kept w w' /\ count is_registration l = 0%nat)
      \/ (hotplug_resolved w' /\ count is_registration l = 1%nat
          /\ count is_target_resolution l = 1%nat
          /\ count is_NewGlobalRef l = 1%nat))
  /\ (hotplug_consistent w -> hotplug_consistent w').

(** What [MacCoreaudio_freeHotplug] may do to the hotplug statics. *)
Definition free_outcome (r : option unit) (w w' : World) (l : list Event)
  : Prop :=
  Effect w w' l
  /\ MacCoreaudio_VM w' = MacCoreaudio_VM w
  /\ count is_registration l = 0%nat
  /\ match r with
     | Some _ =>
         MacCoreaudio_devicesChangedCallbackClass w' = NULL
         /\ MacCoreaudio_devicesChangedCallbackMethodID w' = NULL
     | None => globals_kept w w'
     end.

(** What every entry point guarantees: the guard discipline, and the
    consistency of the two hotplug statics. *)
Definition sound (w w' : World) (l : list Event) : Prop :=
  Effect w w' l /\ (hotplug_consistent w -> hotplug_consistent w').

Definition always_sound {A} (m : M A) : Prop :=
  forall w, wp m (fun _ w' => exists l, sound w w' l) w.

(** ** Sample environments *)

(** A JVM in which everything succeeds; the Java callback leaves the array
    as it is. *)
Definition hotspot : JVM :=
  {| supports_JNI_1_6 := true;
     attach := fun _ => 0;
     find_class := fun _ _ => 100;
     new_global_ref := fun _ obj => obj + 1;
     get_static_method_id := fun _ _ _ _ => 200;
     new_byte_array := fun _ _ => true;
     get_byte_array_elements := fun _ => true;
     java_callback := fun _ _ _ bufferBytes _ => bufferBytes |}.

(** The same, with a Java callback that mutes the buffer. *)
Definition hotspot_muting : JVM :=
  {| supports_JNI_1_6 := true;
     attach := fun _ => 0;
     find_class := fun _ _ => 100;
     new_global_ref := fun _ obj => obj + 1;
     get_static_method_id := fun _ _ _ _ => 200;
     new_byte_array := fun _ _ => true;
     get_byte_array_elements := fun _ => true;
     java_callback := fun _ _ _ bufferBytes _ => map (fun _ => x00) bufferBytes |}.

(** A JVM whose class CoreAudioDevice has no static method [log]. *)
Definition hotspot_without_log : JVM :=
  {| supports_JNI_1_6 := true;
     attach := fun _ => 0;
     find_class := fun _ _ => 100;
     new_global_ref := fun _ obj => obj + 1;
     get_static_method_id :=
       fun _ _ name _ => if String.eqb name "log" then NULL else 200;
     new_byte_array := fun _ _ => true;
     get_byte_array_elements := fun _ => true;
     java_callback := fun _ _ _ bufferBytes _ => bufferBytes |}.

(** A JVM that refuses to attach native threads. *)
Definition hotspot_refusing_threads : JVM :=
  {| supports_JNI_1_6 := true;
     attach := fun _ => -1;
     find_class := fun _ _ => 100;
     new_global_ref := fun _ obj => obj + 1;
     get_static_method_id := fun _ _ _ _ => 200;
     new_byte_array := fun _ _ => true;
     get_byte_array_elements := fun _ => true;
     java_callback := fun _ _ _ bufferBytes _ => map (fun _ => x00) bufferBytes |}.

(** The module loaded, hotplug target unresolved. *)
Definition loaded (attached : bool) : World :=
  {| MacCoreaudio_VM := 1;
     MacCoreaudio_devicesChangedCallbackClass := NULL;
     MacCoreaudio_devicesChangedCallbackMethodID := NULL;
     thread_attached := attached;
     trace := [] |}.

(** The module loaded, hotplug target resolved. *)
Definition registered (attached : bool) : World :=
  {| MacCoreaudio_VM := 1;
     MacCoreaudio_devicesChangedCallbackClass := 101;
     MacCoreaudio_devicesChangedCallbackMethodID := 200;
     thread_attached := attached;
     trace := [] |}.

Definition samples : list byte := [x01; x02; x03; x04].

(** ** MacCoreaudio_getStrBytes *)



(** ** MacCoreaudio_getCallbackMethodID

    The function is handed a JNI environment and does not go through the
    guard; its three JNI calls are logged on their own. *)

Inductive LookupEvent :=
| EvGetObjectClass (obj : jobject) (res : jclass)
| EvGetMethodID (clazz : jclass) (name sig : string) (res : jmethodID)
| EvDeleteLocalRef (obj : jobject).

(** The answers of the JVM to the two look-ups. *)
Record Objects := {
  get_object_class : jobject -> jclass;
  get_method_id : jclass -> string -> string -> jmethodID
}.

(** The identifier returned, and the JNI calls made, oldest first. *)
Definition MacCoreaudio_getCallbackMethodID (env : Objects)
    (callback : jobject) (callbackFunctionName : string)
  : jmethodID * list LookupEvent :=
  let callbackMethodID := NULL in
  if negb (callback =? NULL) then
    let callbackClass := get_object_class env callback in
    if negb (callbackClass =? NULL) then
      let callbackMethodID :=
        get_method_id env callbackClass callbackFunctionName "([BI)V" in
      (callbackMethodID,
       [EvGetObjectClass callback callbackClass;
        EvGetMethodID callbackClass callbackFunctionName "([BI)V"
          callbackMethodID;
        EvDeleteLocalRef callbackClass])
    else (callbackMethodID, [EvGetObjectClass callback callbackClass])
  else (callbackMethodID, []).

(** ** Further vocabulary *)

(** The notification of the hotplug target: the static call without
    argument. *)
Definition is_notification (e : Event) : bool :=
  match e with EvCallStaticVoidMethod _ _ None => true | _ => false end.

(** The static call that carries a message to the Java logger. *)
Definition is_log_call (e : Event) : bool :=
  match e with EvCallStaticVoidMethod _ _ (Some _) => true | _ => false end.

Definition is_unregistration (e : Event) : bool :=
  match e with EvUninitializeHotplug => true | _ => false end.

Definition is_DeleteGlobalRef (e : Event) : bool :=
  match e with EvDeleteGlobalRef _ => true | _ => false end.

(** Whether a registration with the hotplug subsystem is in force at the
    end of a log, given whether one was at its start. *)
Fixpoint registration_pending (pending : bool) (l : list Event) : bool :=
  match l with
  | [] => pending
  | EvInitializeHotplug :: l => registration_pending true l
  | EvUninitializeHotplug :: l => registration_pending false l
  | _ :: l => registration_pending pending l
  end.

(** No registration happens while one is in force. *)
Fixpoint never_doubled (pending : bool) (l : list Event) : bool :=
  match l with
  | [] => true
  | EvInitializeHotplug :: l => negb pending && never_doubled true l
  | EvUninitializeHotplug :: l => never_doubled false l
  | _ :: l => never_doubled pending l
  end.

(** A call that returned left the thread attached, or not, as it found
    it, and detached it as often as it attached it. *)
Definition attachment_restored {A} (r : option A) (w w' : World)
    (l : list Event) : Prop :=
  r <> None ->
  thread_attached w' = thread_attached w
  /\ count is_Attach_ok l = count is_Detach l.

(** Events that the hotplug entry points alone produce. *)
Definition no_hotplug_release (l : list Event) : Prop :=
  count is_notification l = 0%nat
  /\ count is_unregistration l = 0%nat
  /\ count is_DeleteGlobalRef l = 0%nat.

(** A JVM in which the look-ups and allocations of this file succeed:
    threads can be attached, static methods of a class that was found
    are found, and byte arrays can be allocated. *)
Definition cooperative (jvm : JVM) : Prop :=
  supports_JNI_1_6 jvm = true
  /\ (forall h, attach jvm h = 0)
  /\ (forall h clazz name sig, get_static_method_id jvm h clazz name sig <> NULL)
  /\ (forall h n, new_byte_array jvm h n = true)
  /\ (forall h, get_byte_array_elements jvm h = true).

(** What the guarded section of the device-change handler does. *)
Definition notification_outcome (jvm : JVM) (r : option unit) (w w' : World)
    (l : list Event) : Prop :=
  trace w' = trace w ++ l
  /\ attachment_restored r w w' l
  /\ (count is_notification l <= 1)%nat
  /\ (count is_notification l = 1%nat ->
      hotplug_resolved w
      /\ In (EvCallStaticVoidMethod
               (MacCoreaudio_devicesChangedCallbackClass w)
               (MacCoreaudio_devicesChangedCallbackMethodID w) None) l)
  /\ (r = Some tt -> hotplug_resolved w ->
      (if thread_attached w then supports_JNI_1_6 jvm = true
       else forall h, attach jvm h = 0) ->
      count is_notification l = 1%nat).

(** Every release of a global reference comes after an unregistration
    from the hotplug subsystem; [seen] tells whether one came before. *)
Fixpoint released_after_unregistration (seen : bool) (l : list Event) : bool :=
  match l with
  | [] => true
  | EvUninitializeHotplug :: l => released_after_unregistration true l
  | EvDeleteGlobalRef _ :: l => seen && released_after_unregistration seen l
  | _ :: l => released_after_unregistration seen l
  end.

(** What [MacCoreaudio_freeHotplug] does after its log message. *)
Definition release_outcome (jvm : JVM) (r : option unit) (w w' : World)
    (l : list Event) : Prop :=
  trace w' = trace w ++ l
  /\ attachment_restored r w w' l
  /\ count is_unregistration l = 1%nat
  /\ count is_notification l = 0%nat
  /\ count is_NewGlobalRef l = 0%nat
  /\ released_after_unregistration false l = true
  /\ (count is_DeleteGlobalRef l <= 1)%nat
  /\ (count is_DeleteGlobalRef l = 1%nat ->
      In (EvDeleteGlobalRef (MacCoreaudio_devicesChangedCallbackClass w)) l)
  /\ (r = Some tt ->
      (if thread_attached w then supports_JNI_1_6 jvm = true
       else forall h, attach jvm h = 0) ->
      count is_DeleteGlobalRef l = 1%nat)
  /\ (r = Some tt ->
      (if thread_attached w then supports_JNI_1_6 jvm = false
       else forall h, attach jvm h <> 0) ->
      count is_DeleteGlobalRef l = 0%nat).

Definition always_restores {A} (m : M A) : Prop :=
  forall w,
    wp m (fun r w' => exists l,
            trace w' = trace w ++ l /\ attachment_restored r w w' l) w.

(** The registration with the hotplug subsystem follows the statics: it
    was never doubled, and while it is in force the target is resolved. *)
Definition registration_tracked (w : World) : Prop :=
  never_doubled false (trace w) = true
  /\ (registration_pending false (trace w) = true -> hotplug_resolved w)
  /\ hotplug_consistent w.

Definition always_tracks {A} (m : M A) : Prop :=
  forall w,
    wp m (fun _ w' => registration_tracked w -> registration_tracked w') w.

(** In a loaded module the call returns, and leaves the module loaded. *)
Definition returns {A} (m : M A) : Prop :=
  forall w,
    MacCoreaudio_VM w <> NULL ->
    wp m (fun r w' => r <> None /\ MacCoreaudio_VM w' = MacCoreaudio_VM w) w.

(** A call whose arguments are as the caller owes them: a relay is handed
    a length within its buffer, a callback object and a method of it, and
    the Java method leaves the array at its length. *)
Definition admissible (jvm : JVM) (c : Crossing) : Prop :=
  match c with
  | Relay buffer bufferLength callback callbackMethod =>
      0 <= bufferLength <= Z.of_nat (List.length buffer)
      /\ callback <> NULL /\ callbackMethod <> NULL
      /\ (forall h,
            List.length
              (java_callback jvm h callback callbackMethod
                 (firstn (Z.to_nat bufferLength) buffer) bufferLength)
            = Z.to_nat bufferLength)
  | _ => True
  end.

(** What [JNI_OnLoad] leaves behind in a cooperative JVM, from a state
    whose hotplug target is unresolved. *)
Definition load_outcome (w w' : World) (l : list Event) : Prop :=
  trace w' = trace w ++ l
  /\ thread_attached w' = thread_attached w
  /\ count is_Attach_ok l = count is_Detach l
  /\ (count is_registration l <= 1)%nat
  /\ no_hotplug_release l
  /\ (forall obj res,
        In (EvNewGlobalRef obj res) l -> res <> NULL ->
        MacCoreaudio_devicesChangedCallbackClass w' = res).

(** What [JNI_OnUnload] leaves behind in a cooperative JVM. *)
Definition unload_outcome (w w' : World) (l : list Event) : Prop :=
  trace w' = trace w ++ l
  /\ thread_attached w' = thread_attached w
  /\ count is_Attach_ok l = count is_Detach l
  /\ count is_registration l = 0%nat
  /\ count is_unregistration l = 1%nat
  /\ count is_notification l = 0%nat
  /\ count is_NewGlobalRef l = 0%nat
  /\ In (EvDeleteGlobalRef (MacCoreaudio_devicesChangedCallbackClass w)) l
  /\ MacCoreaudio_devicesChangedCallbackClass w' = NULL
  /\ MacCoreaudio_devicesChangedCallbackMethodID w' = NULL.

(** The local references to the class [c] a look-up obtained, and those it
    deleted. *)
Definition local_refs_obtained (c : jclass) (l : list LookupEvent) : nat :=
  count (fun e => match e with
                  | EvGetObjectClass _ res => negb (res =? NULL) && (res =? c)
                  | _ => false
                  end) l.

Definition local_refs_deleted (c : jclass) (l : list LookupEvent) : nat :=
  count (fun e => match e with
                  | EvDeleteLocalRef obj => obj =? c
                  | _ => false
                  end) l.

Definition is_GetMethodID (e : LookupEvent) : bool :=
  match e with EvGetMethodID _ _ _ _ => true | _ => false end.

(** A JVM whose objects all have the class 50, with a method 60 for every
    name. *)
Definition objects : Objects :=
  {| get_object_class := fun _ => 50;
     get_method_id := fun _ _ _ => 60 |}.

(** A JVM whose class CoreAudioDevice has no static method
    [devicesChangedCallback]. *)
Definition hotspot_without_target : JVM :=
  {| supports_JNI_1_6 := true;
     attach := fun _ => 0;
     find_class := fun _ _ => 100;
     new_global_ref := fun _ _ => 101;
     get_static_method_id :=
       fun _ _ name _ =>
         if String.eqb name "devicesChangedCallback" then NULL else 200;
     new_byte_array := fun _ _ => true;
     get_byte_array_elements := fun _ => true;
     java_callback := fun _ _ _ bufferBytes _ => bufferBytes |}.

End CoreAudio.

(* ===================================================================== *)
(** * Properties *)
(* ===================================================================== *)

(** ** Counting *)

Lemma count_app {E} (p : E -> bool) l1 l2 :
  count p (l1 ++ l2) = (count p l1 + count p l2)%nat.
Proof. unfold count. now rewrite filter_app, length_app. Qed.

Lemma count_cons {E} (p : E -> bool) e l :
  count p (e :: l) = ((if p e then 1 else 0) + count p l)%nat.
Proof. unfold count. simpl. now destruct (p e). Qed.

Lemma count_zero_Forall {E} (p : E -> bool) l :
  count p l = 0%nat <-> Forall (fun e => p e = false) l.
Proof.
  induction l as [|e l IH].
  - split; [constructor | reflexivity].
  - rewrite count_cons. destruct (p e) eqn:He; split; intro H.
    + discriminate.
    + inversion H; congruence.
    + constructor; [assumption | now apply IH].
    + inversion H; subst. now apply IH.
Qed.

(** ** DSManager *)

Module DSManagerSpec.
Import DirectShow.

Lemma FAILED_SUCCEEDED hr : FAILED hr = negb (SUCCEEDED hr).
Proof.
  unfold FAILED, SUCCEEDED.
  destruct (Z.ltb_spec hr 0), (Z.leb_spec 0 hr); simpl; lia || reflexivity.
Qed.

(** Case analysis on what COM answers for one candidate. *)
Ltac open_moniker mk :=
  unfold loop_body, vfw_probe, read_properties, create_device, fresh;
  destruct (BindToObject mk) as [btoRes cp] eqn:Ebto;
  destruct (QueryInterface mk) as [qiRes vfw] eqn:Eqi;
  destruct (BindToStorage mk) as [bsRes bag] eqn:Ebs;
  destruct (Read_FriendlyName mk) as [nRes name] eqn:Ename;
  destruct (Read_DevicePath mk) as [pRes path] eqn:Epath;
  unfold log, acquire, release, emit, push_back;
  cbn [m_devices _coUninitialize events app].

Ltac decide_all :=
  repeat (match goal with
          | |- context [if ?c then _ else _] => destruct c
          end; cbn [negb andb fst snd m_devices _coUninitialize events app]).

Ltac tidy :=
  unfold extend, fresh; simpl;
  rewrite ?app_nil_r, <- ?app_assoc; simpl; try reflexivity.

Lemma loop_body_framed mk s :
  loop_body s mk = extend s (loop_body (fresh false) mk).
Proof.
  destruct s as [ds flag evs]. unfold extend. open_moniker mk.
  decide_all; rewrite ?app_nil_r, <- ?app_assoc; reflexivity.
Qed.

Lemma extend_assoc s d1 d2 :
  extend (extend s d1) d2 = extend s (extend d1 d2).
Proof. unfold extend; simpl. now rewrite !app_assoc. Qed.

Lemma loop_framed ms : framed (fold_left loop_body ms).
Proof.
  induction ms as [|mk ms IH]; intros s; simpl.
  - destruct s; tidy.
  - rewrite (IH (loop_body s mk)), (IH (loop_body (fresh false) mk)).
    rewrite (loop_body_framed mk s).
    now rewrite extend_assoc.
Qed.

Lemma loop_body_devices mk :
  m_devices (loop_body (fresh false) mk)
  = if usable mk then [record_of mk] else [].
Proof.
  unfold usable, legacy_capture_dialogs, properties_read, binding_initialized,
    record_of.
  open_moniker mk. rewrite !FAILED_SUCCEEDED. cbn [fst snd].
  destruct (SUCCEEDED btoRes), (SUCCEEDED qiRes), (vfw =? NULL);
    cbn [negb andb]; try reflexivity;
    destruct (SUCCEEDED bsRes), (SUCCEEDED nRes), (SUCCEEDED pRes);
    cbn [negb andb]; try reflexivity;
    destruct (new_DSCaptureDevice mk), (SUCCEEDED (initDevice mk));
    reflexivity.
Qed.

Lemma loop_unfold ms : forall s,
  fold_left loop_body ms s
  = {| m_devices := m_devices s ++ map record_of (filter usable ms);
       _coUninitialize := _coUninitialize s;
       events := events s ++ flat_map body_events ms |}.
Proof.
  induction ms as [|mk ms IH]; intros s; simpl.
  - destruct s; simpl. now rewrite !app_nil_r.
  - rewrite IH, (loop_body_framed mk s). unfold extend; simpl.
    rewrite loop_body_devices. fold (body_events mk).
    rewrite <- !app_assoc. destruct (usable mk); reflexivity.
Qed.

(** The events of an enumeration that finds the category enumerator. *)
Lemma enumerate_available env s :
  enumerator_available env = true ->
  enumerate env s
  = {| m_devices := m_devices s ++ map record_of (filter usable (Next env));
       _coUninitialize := _coUninitialize s;
       events :=
         events s
         ++ [Acquire ICreateDevEnum (Z.pos (snd (CoCreateInstance env)));
             Acquire IEnumMoniker (Z.pos (snd (CreateClassEnumerator env)))]
         ++ flat_map body_events (Next env)
         ++ [Release IEnumMoniker (Z.pos (snd (CreateClassEnumerator env)));
             Release ICreateDevEnum (Z.pos (snd (CoCreateInstance env)))] |}.
Proof.
  unfold enumerator_available, enumerate.
  destruct (CoCreateInstance env) as [r1 devEnum],
    (CreateClassEnumerator env) as [r2 monikerEnum]; simpl.
  rewrite !FAILED_SUCCEEDED. intros H.
  apply andb_prop in H as [H H3]. apply andb_prop in H as [H1 H2].
  rewrite H1, H2. apply negb_true_iff in H3. rewrite H3. simpl.
  rewrite loop_unfold. unfold release, acquire, emit; simpl.
  now rewrite <- !app_assoc.
Qed.

Lemma enumerate_unavailable env s :
  enumerator_available env = false ->
  m_devices (enumerate env s) = m_devices s.
Proof.
  unfold enumerator_available, enumerate.
  destruct (CoCreateInstance env) as [r1 devEnum],
    (CreateClassEnumerator env) as [r2 monikerEnum]; simpl.
  rewrite !FAILED_SUCCEEDED.
  destruct (SUCCEEDED r1), (SUCCEEDED r2), (r2 =? S_FALSE);
    simpl; intros H; reflexivity || discriminate.
Qed.

Lemma enumerate_framed env : framed (enumerate env).
Proof.
  intros s. unfold enumerate.
  destruct (CoCreateInstance env) as [r1 devEnum],
    (CreateClassEnumerator env) as [r2 monikerEnum].
  unfold log, acquire, release, emit.
  destruct (FAILED r1); [destruct s; tidy|].
  destruct (FAILED r2 || (r2 =? S_FALSE)); [destruct s; tidy|].
  rewrite !loop_unfold. destruct s; tidy.
Qed.

Lemma delete_each_unfold s :
  delete_each s
  = {| m_devices := m_devices s;
       _coUninitialize := _coUninitialize s;
       events := events s ++ map Delete (m_devices s) |}.
Proof.
  unfold delete_each.
  assert (G : forall ds t,
    fold_left (fun s d => emit (Delete d) s) ds t
    = {| m_devices := m_devices t;
         _coUninitialize := _coUninitialize t;
         events := events t ++ map Delete ds |}).
  { induction ds as [|d ds IH]; intros t; simpl.
    - destruct t; simpl. now rewrite app_nil_r.
    - rewrite IH. unfold emit; simpl. now rewrite <- app_assoc. }
  apply G.
Qed.

Lemma cleanup_unfold s :
  cleanup s
  = {| m_devices := [];
       _coUninitialize := _coUninitialize s;
       events := events s ++ map Delete (m_devices s) |}.
Proof.
  unfold cleanup. destruct (m_devices s) as [|d ds] eqn:E.
  - simpl. destruct s; simpl in *. subst. now rewrite app_nil_r.
  - replace (0 <? Z.of_nat (List.length (d :: ds))) with true
      by (symmetry; apply Z.ltb_lt; simpl; lia).
    rewrite delete_each_unfold, E. reflexivity.
Qed.

Lemma initCaptureDevices_unfold env s :
  initCaptureDevices env s
  = {| m_devices := m_devices (enumerate env (fresh false));
       _coUninitialize := _coUninitialize s;
       events := events s ++ map Delete (m_devices s)
                   ++ events (enumerate env (fresh false)) |}.
Proof.
  unfold initCaptureDevices.
  rewrite (enumerate_framed env (cleanup s)), cleanup_unfold.
  unfold extend; simpl. now rewrite <- app_assoc.
Qed.

(** No part of the enumeration closes the COM library. *)
Lemma body_events_no_CoUninitialize mk :
  count is_CoUninitialize (body_events mk) = 0%nat.
Proof.
  unfold body_events. open_moniker mk. decide_all; reflexivity.
Qed.

Lemma flat_map_count_zero {A E} (p : E -> bool) (f : A -> list E) l :
  (forall a, count p (f a) = 0%nat) -> count p (flat_map f l) = 0%nat.
Proof.
  intros H. induction l as [|a l IH]; simpl; [reflexivity|].
  now rewrite count_app, H, IH.
Qed.

Lemma enumerate_no_CoUninitialize env :
  count is_CoUninitialize (events (enumerate env (fresh false))) = 0%nat.
Proof.
  unfold enumerate.
  destruct (CoCreateInstance env) as [r1 devEnum],
    (CreateClassEnumerator env) as [r2 monikerEnum].
  destruct (FAILED r1); [reflexivity|].
  destruct (FAILED r2 || (r2 =? S_FALSE)); [reflexivity|].
  rewrite loop_unfold. unfold acquire, release, emit; simpl.
  rewrite !count_cons, !count_app.
  rewrite (flat_map_count_zero _ _ _ body_events_no_CoUninitialize).
  reflexivity.
Qed.

Lemma DSManager_new_no_CoUninitialize env b :
  count is_CoUninitialize (events (DSManager_new env b)) = 0%nat.
Proof.
  unfold DSManager_new. destruct (SUCCEEDED (CoInitializeEx env)); simpl.
  - rewrite initCaptureDevices_unfold; simpl.
    rewrite !count_cons, enumerate_no_CoUninitialize. reflexivity.
  - reflexivity.
Qed.

Lemma map_Delete_no_CoUninitialize ds :
  count is_CoUninitialize (map Delete ds) = 0%nat.
Proof. induction ds; simpl; [reflexivity | now rewrite count_cons, IHds]. Qed.

(** *** Where the references go

    One iteration takes one reference to the moniker and gives it back
    unless the candidate is a legacy device; it takes one reference to the
    base filter when [BindToObject] succeeds and gives it back only if the
    candidate is a legacy device. *)
Lemma body_events_balance mk :
  acquisitions IMoniker (body_events mk) = 1%nat
  /\ releases IMoniker (body_events mk)
     = (if legacy_capture_dialogs mk then 0 else 1)%nat
  /\ acquisitions IBaseFilter (body_events mk)
     = (if SUCCEEDED (fst (BindToObject mk)) then 1 else 0)%nat
  /\ releases IBaseFilter (body_events mk)
     = (if legacy_capture_dialogs mk then 1 else 0)%nat.
Proof.
  unfold body_events, legacy_capture_dialogs.
  open_moniker mk. rewrite !FAILED_SUCCEEDED. cbn [fst snd negb].
  destruct (SUCCEEDED btoRes), (SUCCEEDED qiRes), (vfw =? NULL);
    cbn [negb andb]; decide_all; repeat split; reflexivity.
Qed.

Lemma flat_map_count {A E} (p : E -> bool) (f : A -> list E) (g : A -> nat) l :
  (forall a, count p (f a) = g a) ->
  count p (flat_map f l) = list_sum (map g l).
Proof.
  intros H. induction l as [|a l IH]; simpl; [reflexivity|].
  now rewrite count_app, H, IH.
Qed.

Lemma list_sum_indicator {A} (p : A -> bool) l :
  list_sum (map (fun a => if p a then 0 else 1)%nat l)
  = (List.length l - count p l)%nat
  /\ (count p l <= List.length l)%nat.
Proof.
  induction l as [|a l [IH1 IH2]]; [split; reflexivity|].
  rewrite count_cons. cbn [map List.length].
  destruct (p a); simpl list_sum; rewrite IH1; split; lia.
Qed.

(** Over a whole enumeration, the monikers never released are exactly
    those of the legacy devices. *)
Lemma enumerate_moniker_balance env :
  enumerator_available env = true ->
  let l := events (enumerate env (fresh false)) in
  acquisitions IMoniker l = List.length (Next env)
  /\ (releases IMoniker l + count legacy_capture_dialogs (Next env))%nat
     = acquisitions IMoniker l.
Proof.
  intros Hav l. subst l. rewrite (enumerate_available env _ Hav).
  cbn [events fresh app]. unfold acquisitions, releases.
  rewrite !count_cons, !count_app.
  rewrite (flat_map_count _ body_events (fun _ => 1%nat))
    by (intros a; apply (body_events_balance a)).
  rewrite (flat_map_count _ body_events
             (fun a => if legacy_capture_dialogs a then 0 else 1)%nat)
    by (intros a; apply (body_events_balance a)).
  destruct (list_sum_indicator legacy_capture_dialogs (Next env)) as [-> Hle].
  assert (Hone : forall (ms : list Moniker),
            list_sum (map (fun _ => 1%nat) ms) = List.length ms).
  { induction ms; simpl; [reflexivity | now rewrite IHms]. }
  rewrite Hone. cbn. lia.
Qed.

(** *** The claims *)

(** C1 (fails on the code).  Claim: every interface handle acquired by
    [initCaptureDevices] is released exactly once on every exit path.  On a
    system whose only video input is a Video-for-Windows device, the
    [continue] of the capture-dialogs branch leaves the loop body without
    [moniker->Release()]: the moniker is acquired once and never released.
    On a system with one ordinary camera, the base filter [cp] bound for the
    probe is acquired once and never released.  In both runs the balance
    "released exactly once" is broken. *)
Theorem initCaptureDevices_leaks :
  let legacy := events (initCaptureDevices legacy_only (fresh false)) in
  let normal := events (initCaptureDevices webcam_only (fresh false)) in
  (acquired IMoniker 10 legacy = 1%nat /\ released IMoniker 10 legacy = 0%nat)
  /\ (acquired IBaseFilter 11 normal = 1%nat
      /\ released IBaseFilter 11 normal = 0%nat)
  /\ ~ released_exactly_once legacy
  /\ ~ released_exactly_once normal.
Proof.
  cbv zeta. repeat split; try reflexivity.
  - intros H. specialize (H IMoniker 10). vm_compute in H. discriminate.
  - intros H. specialize (H IBaseFilter 11). vm_compute in H. discriminate.
Qed.

(** C3, as the claim states it, fails: a manager whose constructor
    initialized COM successfully is destroyed without any call of
    [CoUninitialize], where the claim asks for exactly one. *)
Lemma DSManager_successful_init_not_balanced :
  SUCCEEDED (CoInitializeEx webcam_only) = true
  /\ count is_CoUninitialize
       (events (DSManager_delete (DSManager_new webcam_only true))) <> 1%nat.
Proof. split; [reflexivity | vm_compute; discriminate]. Qed.

(** C3 (amended).  Whatever [CoInitializeEx] answered, the constructor
    leaves [_coUninitialize] false, and the life of a manager from
    construction to destruction contains no call of [CoUninitialize]; the
    destructor calls [CoUninitialize] once exactly when the flag is set, and
    not at all otherwise. *)
Theorem DSManager_never_calls_CoUninitialize env indeterminate :
  _coUninitialize (DSManager_new env indeterminate) = false
  /\ count is_CoUninitialize
       (events (DSManager_delete (DSManager_new env indeterminate))) = 0%nat
  /\ (forall s,
        count is_CoUninitialize (events (DSManager_delete s))
        = (count is_CoUninitialize (events s)
           + if _coUninitialize s then 1 else 0)%nat).
Proof.
  assert (D : forall s,
    count is_CoUninitialize (events (DSManager_delete s))
    = (count is_CoUninitialize (events s)
       + if _coUninitialize s then 1 else 0)%nat).
  { intros s. unfold DSManager_delete. rewrite delete_each_unfold; simpl.
    destruct (_coUninitialize s); simpl;
      rewrite !count_app, map_Delete_no_CoUninitialize;
      try change (count is_CoUninitialize [EvCoUninitialize]) with 1%nat;
      lia. }
  assert (F : _coUninitialize (DSManager_new env indeterminate) = false)
    by reflexivity.
  split; [exact F | split; [| exact D]].
  rewrite D, F, DSManager_new_no_CoUninitialize. reflexivity.
Qed.

(** C8.  When the category enumerator is available, the list left by
    [initCaptureDevices] holds exactly the records of the candidates that
    are not legacy capture-dialog devices, whose friendly name and device
    path both read, and whose binding initializes, in enumeration order,
    whatever the list held before.  In particular one legacy device among
    two usable ones, at any position, leaves exactly the two usable ones in
    their order. *)
Theorem initCaptureDevices_filters env s :
  enumerator_available env = true ->
  getDevices (initCaptureDevices env s)
  = map record_of (filter usable (Next env))
  /\ (forall v n1 n2,
        legacy_capture_dialogs v = true ->
        usable n1 = true -> usable n2 = true ->
        In (Next env) [[v; n1; n2]; [n1; v; n2]; [n1; n2; v]] ->
        getDevices (initCaptureDevices env s) = [record_of n1; record_of n2]).
Proof.
  intros Hav.
  assert (G : getDevices (initCaptureDevices env s)
              = map record_of (filter usable (Next env))).
  { unfold getDevices. rewrite initCaptureDevices_unfold; simpl.
    now rewrite (enumerate_available env (fresh false) Hav). }
  split; [exact G|].
  intros v n1 n2 Hv H1 H2 Hin. rewrite G.
  assert (Hv' : usable v = false) by (unfold usable; now rewrite Hv).
  simpl in Hin.
  destruct Hin as [<-|[<-|[<-|[]]]]; simpl; rewrite Hv', H1, H2; reflexivity.
Qed.

Lemma initCaptureDevices_filters_witness :
  enumerator_available one_legacy_two_normal = true
  /\ getDevices (initCaptureDevices one_legacy_two_normal (fresh false))
     = [ {| dev_name := "Front camera"; dev_path := "usb#vid_1" |};
         {| dev_name := "Rear camera"; dev_path := "usb#vid_2" |} ].
Proof.
  split; [reflexivity|].
  exact (proj1 (initCaptureDevices_filters one_legacy_two_normal (fresh false)
                  eq_refl)).
Defined.

(** C9.  A call of [initCaptureDevices] on any manager state first deletes
    every record of the current list, in order, and only then enumerates;
    what it enumerates, and the list it leaves, are those of a first
    initialization, so nothing of the old list survives.  On an empty list
    the call is a first initialization and nothing else, and the clean-up
    leaves the state untouched exactly when the list is empty. *)
Theorem initCaptureDevices_reinitialization env s :
  let first := initCaptureDevices env (fresh false) in
  events (initCaptureDevices env s)
  = events s ++ map Delete (m_devices s) ++ events first
  /\ m_devices (initCaptureDevices env s) = m_devices first
  /\ m_devices (cleanup s) = []
  /\ (m_devices s = [] ->
      initCaptureDevices env s = enumerate env s
      /\ events (initCaptureDevices env s) = events s ++ events first)
  /\ (cleanup s = s <-> m_devices s = []).
Proof.
  cbv zeta.
  assert (C : cleanup s = s <-> m_devices s = []).
  { rewrite cleanup_unfold. split; intros E.
    - rewrite <- E. reflexivity.
    - destruct s; simpl in *. subst. now rewrite app_nil_r. }
  split; [|split; [|split; [|split]]].
  - rewrite !initCaptureDevices_unfold. reflexivity.
  - rewrite !initCaptureDevices_unfold. reflexivity.
  - rewrite cleanup_unfold. reflexivity.
  - intros E. split.
    + unfold initCaptureDevices. now rewrite (proj2 C E).
    + rewrite !initCaptureDevices_unfold, E. reflexivity.
  - exact C.
Qed.

Lemma initCaptureDevices_reinitialization_witness :
  initCaptureDevices one_legacy_two_normal (fresh false)
  = enumerate one_legacy_two_normal (fresh false).
Proof.
  exact (proj1 (proj1 (proj2 (proj2 (proj2
    (initCaptureDevices_reinitialization one_legacy_two_normal
       (fresh false))))) eq_refl)).
Defined.

(** *** Further properties of the manager *)

(** Records: one candidate constructs as many records as it deletes, plus
    the one it appends to the list when it is usable. *)
Lemma body_events_records p mk :
  count (is_New p) (body_events mk)
  = (count (is_Delete p) (body_events mk)
     + count p (if usable mk then [record_of mk] else []))%nat.
Proof.
  unfold body_events, usable, legacy_capture_dialogs, properties_read,
    binding_initialized, record_of.
  open_moniker mk. rewrite !FAILED_SUCCEEDED. cbn [fst snd].
  destruct (SUCCEEDED btoRes), (SUCCEEDED qiRes), (vfw =? NULL);
    cbn [negb andb events]; try reflexivity;
    destruct (SUCCEEDED bsRes), (SUCCEEDED nRes), (SUCCEEDED pRes);
    cbn [negb andb events]; try reflexivity;
    destruct (new_DSCaptureDevice mk), (SUCCEEDED (initDevice mk));
    cbn [negb andb events]; try reflexivity;
    unfold count; simpl;
    destruct (p {| dev_name := name; dev_path := path |}); reflexivity.
Qed.

Lemma loop_records p ms :
  count (is_New p) (flat_map body_events ms)
  = (count (is_Delete p) (flat_map body_events ms)
     + count p (map record_of (filter usable ms)))%nat.
Proof.
  induction ms as [|mk ms IH]; [reflexivity|].
  cbn [flat_map filter]. rewrite !count_app, IH, body_events_records.
  destruct (usable mk); cbn [map]; rewrite ?count_cons; cbn [count filter List.length]; lia.
Qed.

Lemma enumerate_records p env :
  count (is_New p) (events (enumerate env (fresh false)))
  = (count (is_Delete p) (events (enumerate env (fresh false)))
     + count p (m_devices (enumerate env (fresh false))))%nat.
Proof.
  unfold enumerate.
  destruct (CoCreateInstance env) as [r1 devEnum],
    (CreateClassEnumerator env) as [r2 monikerEnum].
  destruct (FAILED r1); [reflexivity|].
  destruct (FAILED r2 || (r2 =? S_FALSE)); [reflexivity|].
  rewrite loop_unfold. unfold acquire, release, emit; simpl.
  rewrite !count_cons, !count_app, loop_records, !count_cons. cbn. lia.
Qed.

Lemma map_Delete_records p ds :
  count (is_New p) (map Delete ds) = 0%nat
  /\ count (is_Delete p) (map Delete ds) = count p ds.
Proof.
  induction ds as [|d ds [IH1 IH2]]; [split; reflexivity|].
  cbn [map]. rewrite !count_cons, IH1, IH2. split; reflexivity.
Qed.


Lemma initCaptureDevices_records p env s :
  records_accounted p s -> records_accounted p (initCaptureDevices env s).
Proof.
  unfold records_accounted. intros H.
  rewrite initCaptureDevices_unfold. cbn [events m_devices].
  rewrite !count_app, enumerate_records.
  destruct (map_Delete_records p (m_devices s)) as [-> ->]. lia.
Qed.

Lemma reinitialize_records p envs : forall s,
  records_accounted p s -> records_accounted p (reinitialize envs s).
Proof.
  unfold reinitialize.
  induction envs as [|env envs IH]; intros s H; [exact H|].
  cbn [fold_left]. apply IH, initCaptureDevices_records, H.
Qed.

Lemma DSManager_new_records p env b :
  records_accounted p (DSManager_new env b).
Proof.
  unfold DSManager_new.
  destruct (SUCCEEDED (CoInitializeEx env)).
  - unfold records_accounted, set_coUninitialize. cbn [events m_devices].
    apply initCaptureDevices_records. reflexivity.
  - reflexivity.
Qed.

Lemma DSManager_delete_unfold s :
  m_devices (DSManager_delete s) = []
  /\ events (DSManager_delete s)
     = events s ++ map Delete (m_devices s)
       ++ (if _coUninitialize s then [EvCoUninitialize] else []).
Proof.
  unfold DSManager_delete. rewrite delete_each_unfold. unfold clear, emit.
  cbn [m_devices _coUninitialize events].
  destruct (_coUninitialize s); cbn [m_devices events].
  - split; [reflexivity | now rewrite <- app_assoc].
  - split; [reflexivity | now rewrite app_nil_r].
Qed.

(** X1.  Over the life of a manager (construction, any number of
    reinitializations in whatever systems, destruction) every record
    that is constructed is deleted exactly once: until the destructor
    runs, the records constructed and not yet deleted are those of the
    list, and the destructor leaves none. Records are counted by any
    property [p] of their identity, so the balance holds for each
    identity separately. *)
Theorem lifetime_records_balanced env indeterminate envs p :
  let s := reinitialize envs (DSManager_new env indeterminate) in
  count (is_New p) (events s)
  = (count (is_Delete p) (events s) + count p (getDevices s))%nat
  /\ count (is_New p) (events (lifetime env indeterminate envs))
     = count (is_Delete p) (events (lifetime env indeterminate envs))
  /\ getDevices (lifetime env indeterminate envs) = [].
Proof.
  cbv zeta. unfold lifetime, getDevices.
  pose proof (reinitialize_records p envs _
                (DSManager_new_records p env indeterminate)) as H.
  set (s := reinitialize envs (DSManager_new env indeterminate)) in *.
  destruct (DSManager_delete_unfold s) as [Hd He].
  split; [exact H | split; [| exact Hd]].
  rewrite He, !count_app.
  destruct (map_Delete_records p (m_devices s)) as [-> ->].
  unfold records_accounted in H.
  destruct (_coUninitialize s); cbn; lia.
Qed.

(** References of the interfaces other than the moniker and the base
    filter: one candidate gives back every reference it takes, pointer by
    pointer. *)
Lemma body_events_balanced i p mk :
  balanced_interface i = true ->
  released i p (body_events mk) = acquired i p (body_events mk).
Proof.
  intros Hi. unfold body_events, released, acquired.
  open_moniker mk.
  destruct i; try discriminate Hi; clear Hi;
    destruct (vfw =? NULL); cbn [negb];
    decide_all; unfold count; simpl; try reflexivity;
    repeat match goal with
           | |- context [p =? ?q] => destruct (p =? q)
           end; reflexivity.
Qed.

Lemma loop_balanced i p ms :
  balanced_interface i = true ->
  released i p (flat_map body_events ms)
  = acquired i p (flat_map body_events ms).
Proof.
  intros Hi. induction ms as [|mk ms IH]; [reflexivity|].
  cbn [flat_map]. unfold released, acquired in *.
  rewrite !count_app, IH. f_equal. apply (body_events_balanced i p mk Hi).
Qed.

Lemma enumerate_balanced i p env :
  balanced_interface i = true ->
  released i p (events (enumerate env (fresh false)))
  = acquired i p (events (enumerate env (fresh false))).
Proof.
  intros Hi. unfold enumerate.
  destruct (CoCreateInstance env) as [r1 devEnum],
    (CreateClassEnumerator env) as [r2 monikerEnum].
  destruct (FAILED r1); [reflexivity|].
  unfold acquire, release, emit, log.
  destruct (FAILED r2 || (r2 =? S_FALSE)).
  - unfold released, acquired, count; simpl.
    destruct i; try discriminate Hi; simpl; try reflexivity;
      destruct (p =? Z.pos devEnum); reflexivity.
  - rewrite loop_unfold. cbn [events fresh app].
    pose proof (loop_balanced i p (Next env) Hi) as H.
    unfold released, acquired in *.
    rewrite !count_cons, !count_app, H, !count_cons.
    destruct i; try discriminate Hi; simpl;
      repeat match goal with
             | |- context [p =? ?q] => destruct (p =? q)
             end; cbn [count filter List.length]; lia.
Qed.

Lemma map_Delete_references i p ds :
  released i p (map Delete ds) = 0%nat /\ acquired i p (map Delete ds) = 0%nat.
Proof.
  unfold released, acquired.
  induction ds as [|d ds [IH1 IH2]]; [split; reflexivity|].
  cbn [map]. rewrite !count_cons, IH1, IH2. split; reflexivity.
Qed.

(** X2.  [initCaptureDevices] gives back every reference it takes to the
    device enumerator, the category enumerator, a property bag or the
    capture dialogs, pointer by pointer and on every path: what is
    outstanding after the call is what was outstanding before it. *)
Theorem initCaptureDevices_balanced_interfaces env s i p :
  balanced_interface i = true ->
  (released i p (events (initCaptureDevices env s))
   + acquired i p (events s))%nat
  = (acquired i p (events (initCaptureDevices env s))
     + released i p (events s))%nat.
Proof.
  intros Hi. rewrite initCaptureDevices_unfold. cbn [events].
  pose proof (enumerate_balanced i p env Hi) as H.
  destruct (map_Delete_references i p (m_devices s)) as [Hr Ha].
  unfold released, acquired in *.
  rewrite !count_app, H, Hr, Ha. lia.
Qed.

Lemma initCaptureDevices_balanced_interfaces_witness :
  balanced_interface IPropertyBag = true
  /\ (released IPropertyBag 12%Z
        (events (initCaptureDevices one_legacy_two_normal (fresh false)))
      + acquired IPropertyBag 12%Z (events (fresh false)))%nat
     = (acquired IPropertyBag 12%Z
          (events (initCaptureDevices one_legacy_two_normal (fresh false)))
        + released IPropertyBag 12%Z (events (fresh false)))%nat.
Proof.
  split; [reflexivity|].
  apply (initCaptureDevices_balanced_interfaces one_legacy_two_normal
           (fresh false) IPropertyBag 12).
  reflexivity.
Defined.

(** Log lines: a candidate is reported through [logger->error] once when a
    step fails for it, and not at all when it is accepted or skipped as a
    legacy device. *)
Lemma body_events_errors mk :
  count is_error (body_events mk)
  = (if failed_candidate mk then 1 else 0)%nat.
Proof.
  unfold body_events, failed_candidate, legacy_capture_dialogs,
    properties_read, binding_initialized.
  open_moniker mk. rewrite !FAILED_SUCCEEDED. cbn [fst snd].
  destruct (SUCCEEDED btoRes), (SUCCEEDED qiRes), (vfw =? NULL);
    cbn [negb andb events]; try reflexivity;
    destruct (SUCCEEDED bsRes), (SUCCEEDED nRes), (SUCCEEDED pRes);
    cbn [negb andb events]; try reflexivity;
    destruct (new_DSCaptureDevice mk), (SUCCEEDED (initDevice mk));
    reflexivity.
Qed.

Lemma list_sum_indicator_pos {A} (p : A -> bool) l :
  list_sum (map (fun a => if p a then 1 else 0)%nat l) = count p l.
Proof.
  induction l as [|a l IH]; [reflexivity|].
  rewrite count_cons. cbn [map]. simpl list_sum. now rewrite IH.
Qed.

(** Every candidate is of exactly one kind: legacy, usable or failed. *)
Lemma candidates_partition ms :
  (count legacy_capture_dialogs ms + count usable ms
   + count failed_candidate ms)%nat = List.length ms.
Proof.
  induction ms as [|mk ms IH]; [reflexivity|].
  rewrite !count_cons. cbn [List.length]. rewrite <- IH.
  unfold usable, failed_candidate.
  destruct (legacy_capture_dialogs mk), (properties_read mk),
    (binding_initialized mk); simpl; lia.
Qed.

(** X4.  When the category enumerator is available, every candidate is
    accounted for: it is in the list, or it was skipped as a legacy
    capture-dialogs device, or it was reported with exactly one error
    line; no error line is written for anything else. *)
Theorem enumerate_accounts_for_candidates env s :
  enumerator_available env = true ->
  let after := enumerate env s in
  (count is_error (events after)
   = count is_error (events s) + count failed_candidate (Next env))%nat
  /\ (List.length (getDevices after) + count legacy_capture_dialogs (Next env)
      + count failed_candidate (Next env))%nat
     = (List.length (getDevices s) + List.length (Next env))%nat.
Proof.
  intros Hav. cbv zeta. unfold getDevices.
  rewrite (enumerate_available env s Hav). cbn [events m_devices].
  rewrite !count_app, !count_cons. cbn [is_error].
  rewrite (flat_map_count _ body_events
             (fun a => if failed_candidate a then 1 else 0)%nat)
    by apply body_events_errors.
  rewrite list_sum_indicator_pos, length_app, length_map.
  pose proof (candidates_partition (Next env)) as H.
  unfold count in *. simpl. lia.
Qed.

Lemma enumerate_accounts_for_candidates_witness :
  enumerator_available (system_with [nameless_camera 40; webcam 10 "a" "b"])
  = true
  /\ count is_error
       (events (enumerate (system_with [nameless_camera 40; webcam 10 "a" "b"])
                  (fresh false)))
     = 1%nat.
Proof.
  split; [reflexivity|].
  exact (proj1 (enumerate_accounts_for_candidates
                  (system_with [nameless_camera 40; webcam 10 "a" "b"])
                  (fresh false) eq_refl)).
Defined.

(** X5.  When the category enumerator cannot be obtained, be it that the
    device enumerator cannot be created, that the class enumerator fails
    or that the category is empty, [initCaptureDevices] leaves an empty
    list: the records of the old list are deleted, no record is
    constructed, one error line is written, and the device enumerator,
    if it was obtained, is released. *)
Theorem initCaptureDevices_without_enumerator env s :
  enumerator_available env = false ->
  getDevices (initCaptureDevices env s) = []
  /\ exists l,
       events (initCaptureDevices env s)
       = events s ++ map Delete (m_devices s) ++ l
       /\ count is_error l = 1%nat
       /\ count (is_New (fun _ => true)) l = 0%nat
       /\ released_exactly_once l.
Proof.
  intros Hav. unfold getDevices.
  rewrite initCaptureDevices_unfold. cbn [m_devices events].
  split; [now rewrite (enumerate_unavailable env _ Hav)|].
  exists (events (enumerate env (fresh false))).
  split; [reflexivity|].
  revert Hav. unfold enumerator_available, enumerate.
  destruct (CoCreateInstance env) as [r1 devEnum],
    (CreateClassEnumerator env) as [r2 monikerEnum]; cbn [fst snd].
  rewrite !FAILED_SUCCEEDED.
  destruct (SUCCEEDED r1), (SUCCEEDED r2), (r2 =? S_FALSE);
    cbn [negb andb orb]; intros Hav; try discriminate Hav;
    (split; [reflexivity | split; [reflexivity|]]);
    intros i p; unfold released, acquired, count; simpl;
    destruct i; simpl; try reflexivity;
    destruct (p =? Z.pos devEnum); reflexivity.
Qed.

Lemma initCaptureDevices_without_enumerator_witness :
  enumerator_available empty_category = false
  /\ getDevices
       (initCaptureDevices empty_category
          (initCaptureDevices webcam_only (fresh false))) = [].
Proof.
  split; [reflexivity|].
  exact (proj1 (initCaptureDevices_without_enumerator empty_category
                  (initCaptureDevices webcam_only (fresh false)) eq_refl)).
Defined.

(** X6.  The list of a manager that has just been constructed: the
    usable candidates in enumeration order when COM initialized and the
    category enumerator is available, and nothing otherwise. When
    [CoInitializeEx] fails the constructor makes no other call: it
    writes one error line and that is all. *)
Theorem DSManager_new_devices env indeterminate :
  getDevices (DSManager_new env indeterminate)
  = (if SUCCEEDED (CoInitializeEx env) && enumerator_available env
     then map record_of (filter usable (Next env))
     else [])
  /\ (SUCCEEDED (CoInitializeEx env) = false ->
      events (DSManager_new env indeterminate)
      = [EvCoInitializeEx (CoInitializeEx env);
         Log error "CoInitializeEx failed: 0x%x"]).
Proof.
  unfold getDevices, DSManager_new.
  destruct (SUCCEEDED (CoInitializeEx env)); cbn [andb].
  - split; [| discriminate].
    unfold set_coUninitialize. cbn [m_devices].
    rewrite initCaptureDevices_unfold. cbn [m_devices].
    destruct (enumerator_available env) eqn:Hav.
    + now rewrite (enumerate_available env _ Hav).
    + now rewrite (enumerate_unavailable env _ Hav).
  - split; reflexivity.
Qed.

Lemma DSManager_new_devices_witness :
  SUCCEEDED (CoInitializeEx
               {| CoInitializeEx := E_FAIL;
                  CoCreateInstance := (S_OK, 1%positive);
                  CreateClassEnumerator := (S_OK, 2%positive);
                  Next := [webcam 10 "a" "b"] |}) = false
  /\ events (DSManager_new
               {| CoInitializeEx := E_FAIL;
                  CoCreateInstance := (S_OK, 1%positive);
                  CreateClassEnumerator := (S_OK, 2%positive);
                  Next := [webcam 10 "a" "b"] |} true)
     = [EvCoInitializeEx E_FAIL; Log error "CoInitializeEx failed: 0x%x"].
Proof.
  split; [reflexivity|].
  exact (proj2 (DSManager_new_devices
                  {| CoInitializeEx := E_FAIL;
                     CoCreateInstance := (S_OK, 1%positive);
                     CreateClassEnumerator := (S_OK, 2%positive);
                     Next := [webcam 10 "a" "b"] |} true) eq_refl).
Defined.

(** Where the records of the list come from. *)
Lemma body_events_initialized mk :
  initialized (body_events mk) = (if usable mk then [record_of mk] else []).
Proof.
  unfold body_events, usable, legacy_capture_dialogs, properties_read,
    binding_initialized, record_of, initialized.
  open_moniker mk. rewrite !FAILED_SUCCEEDED. cbn [fst snd].
  destruct (SUCCEEDED btoRes), (SUCCEEDED qiRes), (vfw =? NULL);
    cbn [negb andb events]; try reflexivity;
    destruct (SUCCEEDED bsRes), (SUCCEEDED nRes), (SUCCEEDED pRes);
    cbn [negb andb events]; try reflexivity;
    destruct (new_DSCaptureDevice mk), (SUCCEEDED (initDevice mk)) eqn:Hid;
    cbn [negb andb events flat_map app]; rewrite ?Hid; reflexivity.
Qed.

Lemma initialized_app l1 l2 :
  initialized (l1 ++ l2) = initialized l1 ++ initialized l2.
Proof. unfold initialized. apply flat_map_app. Qed.

Lemma loop_initialized ms :
  initialized (flat_map body_events ms) = map record_of (filter usable ms).
Proof.
  induction ms as [|mk ms IH]; [reflexivity|].
  cbn [flat_map filter]. rewrite initialized_app, IH.
  rewrite (body_events_initialized mk).
  destruct (usable mk); reflexivity.
Qed.

(** X7.  The list left by an enumeration holds, in the order of the
    calls, exactly the records whose [initDevice] call succeeded during
    that enumeration; a record whose [initDevice] fails never reaches
    the list. *)
Theorem enumerate_lists_initialized env :
  getDevices (enumerate env (fresh false))
  = initialized (events (enumerate env (fresh false))).
Proof.
  unfold getDevices, enumerate.
  destruct (CoCreateInstance env) as [r1 devEnum],
    (CreateClassEnumerator env) as [r2 monikerEnum].
  destruct (FAILED r1); [reflexivity|].
  destruct (FAILED r2 || (r2 =? S_FALSE)); [reflexivity|].
  rewrite loop_unfold. unfold acquire, release, emit.
  cbn [m_devices events fresh].
  rewrite !initialized_app, loop_initialized. cbn.
  now rewrite !app_nil_r.
Qed.

(** References never given back, over the candidates. *)
Lemma loop_outstanding ms :
  acquisitions IMoniker (flat_map body_events ms)
  = (releases IMoniker (flat_map body_events ms)
     + count legacy_capture_dialogs ms)%nat
  /\ acquisitions IBaseFilter (flat_map body_events ms)
     = (releases IBaseFilter (flat_map body_events ms)
        + count filter_kept ms)%nat.
Proof.
  induction ms as [|mk ms [IH1 IH2]]; [split; reflexivity|].
  cbn [flat_map]. unfold acquisitions, releases in *.
  rewrite !count_app, IH1, IH2, !count_cons.
  destruct (body_events_balance mk) as (A1 & R1 & A2 & R2).
  unfold acquisitions, releases in *. rewrite A1, R1, A2, R2.
  unfold filter_kept, legacy_capture_dialogs.
  destruct (SUCCEEDED (fst (BindToObject mk))),
    (SUCCEEDED (fst (QueryInterface mk))),
    (negb (snd (QueryInterface mk) =? NULL)); cbn [andb negb]; split; lia.
Qed.

(** X3.  Over an enumeration, the monikers that are not released are
    those of the legacy devices, one each, and the base filters that are
    not released are those bound for a candidate that is not a legacy
    device, one each; every other moniker and base filter is released
    once. *)
Theorem enumerate_outstanding_references env :
  enumerator_available env = true ->
  let l := events (enumerate env (fresh false)) in
  acquisitions IMoniker l
  = (releases IMoniker l + count legacy_capture_dialogs (Next env))%nat
  /\ acquisitions IBaseFilter l
     = (releases IBaseFilter l + count filter_kept (Next env))%nat.
Proof.
  intros Hav l. subst l. rewrite (enumerate_available env _ Hav).
  cbn [events fresh app].
  destruct (loop_outstanding (Next env)) as [H1 H2].
  unfold acquisitions, releases in *.
  rewrite !count_cons, !count_app, H1, H2, !count_cons. cbn. lia.
Qed.

Lemma enumerate_outstanding_references_witness :
  enumerator_available one_legacy_two_normal = true
  /\ acquisitions IBaseFilter
       (events (enumerate one_legacy_two_normal (fresh false)))
     = (releases IBaseFilter
          (events (enumerate one_legacy_two_normal (fresh false)))
        + 2)%nat.
Proof.
  split; [reflexivity|].
  exact (proj2 (enumerate_outstanding_references one_legacy_two_normal
                  eq_refl)).
Defined.
End DSManagerSpec.

(** ** CoreAudio *)

Module CoreAudioSpec.
Import CoreAudio.
Local Open Scope m_scope.

Lemma wp_ret {A} (a : A) Q w : Q (Some a) w -> wp (ret a) Q w.
Proof. exact (fun H => H). Qed.

Lemma wp_fault {A} (Q : option A -> World -> Prop) w :
  Q None w -> wp fault Q w.
Proof. exact (fun H => H). Qed.

Lemma wp_bind {A B} (m : M A) (k : A -> M B) Q w :
  wp m (fun r w' => match r with
                    | Some a => wp (k a) Q w'
                    | None => Q None w'
                    end) w ->
  wp (bind m k) Q w.
Proof.
  unfold wp, bind. destruct (m w) as [[a|] w']; simpl; exact (fun H => H).
Qed.

Lemma wp_run {A} (m : M A) (Q : option A -> World -> Prop) w :
  wp m Q w -> Q (fst (m w)) (snd (m w)).
Proof. exact (fun H => H). Qed.

Lemma wp_weaken {A} (m : M A) (P Q : option A -> World -> Prop) w :
  wp m P w -> (forall r w', P r w' -> Q r w') -> wp m Q w.
Proof. unfold wp. auto. Qed.

Ltac world :=
  unfold set_trace, set_thread_attached, fault, ret in *;
  cbn [set_trace set_thread_attached MacCoreaudio_VM
       MacCoreaudio_devicesChangedCallbackClass
       MacCoreaudio_devicesChangedCallbackMethodID thread_attached trace
       fst snd negb andb orb] in *.

(** The first test a boolean expression depends on. *)
Ltac atom c k :=
  lazymatch c with
  | negb ?a => atom a k
  | andb ?a _ => atom a k
  | orb ?a _ => atom a k
  | _ => k c
  end.

Ltac split_on c :=
  atom c ltac:(fun a =>
    lazymatch goal with
    | H : a = _ |- _ => rewrite H
    | _ => let E := fresh "E" in destruct a eqn:E
    end); world.

Section WithJVM.
Variable jvm : JVM.

(** *** The guard *)

(** The five ways [ATTACH] can end. *)
Lemma wp_ATTACH (Q : option (bool * bool) -> World -> Prop) w :
  (MacCoreaudio_VM w = NULL -> Q None w) ->
  (MacCoreaudio_VM w <> NULL -> thread_attached w = true ->
   supports_JNI_1_6 jvm = true ->
   Q (Some (true, false)) (set_trace (trace w ++ [EvGetEnv JNI_OK]) w)) ->
  (MacCoreaudio_VM w <> NULL -> thread_attached w = true ->
   supports_JNI_1_6 jvm = false ->
   Q (Some (false, false)) (set_trace (trace w ++ [EvGetEnv JNI_EVERSION]) w)) ->
  (forall res,
     MacCoreaudio_VM w <> NULL -> thread_attached w = false ->
     res = attach jvm (trace w ++ [EvGetEnv JNI_EDETACHED]) ->
     (res =? 0) = true ->
     Q (Some (true, true))
       (set_trace (trace w ++ [EvGetEnv JNI_EDETACHED;
                               EvAttachCurrentThreadAsDaemon res])
          (set_thread_attached true w))) ->
  (forall res,
     MacCoreaudio_VM w <> NULL -> thread_attached w = false ->
     res = attach jvm (trace w ++ [EvGetEnv JNI_EDETACHED]) ->
     (res =? 0) = false ->
     Q (Some (false, false))
       (set_trace (trace w ++ [EvGetEnv JNI_EDETACHED;
                               EvAttachCurrentThreadAsDaemon res]) w)) ->
  wp (ATTACH jvm) Q w.
Proof.
  intros Hnull Hpre Hver Hown Hrefused.
  destruct w as [vm cls mid att tr]. world.
  unfold wp, ATTACH, bind, GetEnv, AttachCurrentThreadAsDaemon, ret, fault.
  world.
  destruct (vm =? NULL) eqn:Evm.
  { apply Z.eqb_eq in Evm. subst. now apply Hnull. }
  assert (Hvm : vm <> NULL) by now apply Z.eqb_neq.
  destruct att; [destruct (supports_JNI_1_6 jvm) eqn:Ev|].
  - now apply Hpre.
  - now apply Hver.
  - change (JNI_EDETACHED =? JNI_EDETACHED) with true. cbv iota. world.
    rewrite Evm.
    destruct (attach jvm (tr ++ [EvGetEnv JNI_EDETACHED]) =? 0) eqn:Ea;
      world; rewrite <- app_assoc.
    + now apply (Hown _ Hvm eq_refl eq_refl).
    + now apply (Hrefused _ Hvm eq_refl eq_refl).
Qed.

Lemma wp_DETACH (shouldDetach : bool) (Q : option unit -> World -> Prop) w :
  MacCoreaudio_VM w <> NULL ->
  Q (Some tt)
    (if shouldDetach
     then set_trace (trace w ++ [EvDetachCurrentThread])
            (set_thread_attached false w)
     else w) ->
  wp (DETACH shouldDetach) Q w.
Proof.
  intros Hvm H. apply Z.eqb_neq in Hvm.
  unfold wp, DETACH, DetachCurrentThread, ret.
  destruct shouldDetach; [rewrite Hvm|]; exact H.
Qed.

(** *** What a call may change *)

Lemma detach_justified_mono l : forall b,
  detach_justified b l = true -> detach_justified true l = true.
Proof.
  induction l as [|e l IH]; intros b H; [reflexivity|].
  destruct e; simpl in *; eauto.
  destruct b; simpl in *; [assumption | discriminate].
Qed.

Lemma detach_justified_app l1 : forall b l2,
  detach_justified b l1 = true -> detach_justified false l2 = true ->
  detach_justified b (l1 ++ l2) = true.
Proof.
  induction l1 as [|e l1 IH]; intros b l2 H1 H2; simpl.
  - destruct b; [eapply detach_justified_mono; eassumption | assumption].
  - destruct e; simpl in *; eauto.
    apply andb_prop in H1 as [-> H1]. simpl. eauto.
Qed.

Lemma Effect_trans w w1 w2 l1 l2 :
  Effect w w1 l1 -> Effect w1 w2 l2 -> Effect w w2 (l1 ++ l2).
Proof.
  intros [T1 J1 A1] [T2 J2 A2]. constructor.
  - now rewrite T2, T1, app_assoc.
  - now apply detach_justified_app.
  - intros H. destruct (A1 H) as [H1 C1]. destruct (A2 H1) as [H2 C2].
    split; [assumption|]. now rewrite count_app, C1, C2.
Qed.

Lemma quiet_trans w w1 w2 l1 l2 :
  quiet w w1 l1 -> quiet w1 w2 l2 -> quiet w w2 (l1 ++ l2).
Proof.
  intros (E1 & V1 & [C1 M1] & (R1 & T1 & G1))
         (E2 & V2 & [C2 M2] & (R2 & T2 & G2)).
  split; [eapply Effect_trans; eassumption|].
  split; [congruence|]. split; [split; congruence|].
  repeat split; rewrite count_app; lia.
Qed.

Lemma SetByteArrayRegion_pure a s n b w :
  exists r, SetByteArrayRegion a s n b w = (r, w).
Proof.
  unfold SetByteArrayRegion. destruct a as [a|]; [|now exists None].
  repeat match goal with
         | |- context [if ?c then _ else _] => destruct c
         end; eexists; reflexivity.
Qed.

Lemma wp_SetByteArrayRegion a s n b (Q : option (list byte) -> World -> Prop) w :
  (forall r, Q r w) -> wp (SetByteArrayRegion a s n b) Q w.
Proof.
  intros H. unfold wp.
  destruct (SetByteArrayRegion_pure a s n b w) as [r ->]. apply H.
Qed.

Lemma memcpy_pure d s n w : exists r, memcpy d s n w = (r, w).
Proof.
  unfold memcpy.
  destruct ((n <? 0) || (Z.of_nat (List.length d) <? n)
            || (Z.of_nat (List.length s) <? n)); eexists; reflexivity.
Qed.

Lemma wp_memcpy d s n (Q : option (list byte) -> World -> Prop) w :
  (forall r, Q r w) -> wp (memcpy d s n) Q w.
Proof.
  intros H. unfold wp. destruct (memcpy_pure d s n w) as [r ->]. apply H.
Qed.

(** One step of symbolic execution. *)
Ltac prim p :=
  unfold wp at 1; unfold p; world;
  repeat lazymatch goal with
         | |- context [fst (if ?c then _ else _)] => split_on c
         end.

Ltac step :=
  lazymatch goal with
  | |- wp (bind _ _) _ _ => apply wp_bind
  | |- wp (ret _) _ _ => apply wp_ret; world
  | |- wp (fun w => (Some _, w)) _ _ => unfold wp at 1; world
  | |- wp fault _ _ => apply wp_fault; world
  | |- wp (fun w => (None, w)) _ _ => unfold wp at 1; world
  | |- wp (if ?c then _ else _) _ _ => split_on c
  | |- wp (match ?x with Some _ => _ | None => _ end) _ _ =>
      destruct x eqn:?; world
  | |- wp (ATTACH _) _ _ => apply wp_ATTACH; world; intros; subst
  | |- wp (DETACH _) _ _ => apply wp_DETACH; world; [assumption|]
  | |- wp (SetByteArrayRegion _ _ _ _) _ _ =>
      apply wp_SetByteArrayRegion; intros [?|]; world
  | |- wp (memcpy _ _ _) _ _ => apply wp_memcpy; intros [?|]; world
  | |- wp (FindClass _ _) _ _ => prim FindClass
  | |- wp (NewGlobalRef _ _) _ _ => prim NewGlobalRef
  | |- wp (DeleteGlobalRef _) _ _ => prim DeleteGlobalRef; unfold emit; world
  | |- wp (GetStaticMethodID _ _ _ _) _ _ => prim GetStaticMethodID
  | |- wp (NewByteArray _ _) _ _ => prim NewByteArray
  | |- wp (GetByteArrayElements _ _) _ _ => prim GetByteArrayElements
  | |- wp (CallVoidMethod _ _ _ _ _) _ _ => prim CallVoidMethod
  | |- wp (CallStaticVoidMethod _ _ _) _ _ => prim CallStaticVoidMethod
  | |- wp MacCoreaudio_initializeHotplug _ _ =>
      prim MacCoreaudio_initializeHotplug; unfold emit; world
  | |- wp MacCoreaudio_uninitializeHotplug _ _ =>
      prim MacCoreaudio_uninitializeHotplug; unfold emit; world
  | |- wp (gets _) _ _ => unfold wp at 1; unfold gets; world
  | |- wp (set_VM _) _ _ => unfold wp at 1; unfold set_VM; world
  | |- wp (set_devicesChangedCallbackClass _) _ _ =>
      unfold wp at 1; unfold set_devicesChangedCallbackClass; world
  | |- wp (set_devicesChangedCallbackMethodID _) _ _ =>
      unfold wp at 1; unfold set_devicesChangedCallbackMethodID; world
  end.

Ltac steps := repeat step.

Ltac use_eqs :=
  repeat match goal with
         | H : ?c = true |- context [?c] => progress rewrite H
         | H : ?c = false |- context [?c] => progress rewrite H
         end.

Ltac solve_trace := first [reflexivity | symmetry; apply app_nil_r].

Ltac solve_justified :=
  cbn [detach_justified orb andb]; use_eqs;
  cbn [detach_justified orb andb]; reflexivity.

Ltac solve_attached :=
  let H := fresh in
  intros H; first [discriminate H | split; [solve [auto] | reflexivity]].

Ltac solve_effect :=
  constructor; cbn [trace MacCoreaudio_VM thread_attached];
  [solve_trace | solve_justified | solve_attached].

Ltac normalize_trace := rewrite <- ?app_assoc in *; cbn [app] in *.

Ltac solve_quiet :=
  normalize_trace; eexists; split; [solve_effect|];
  split; [reflexivity|]; split; repeat split; reflexivity.

Lemma MacCoreaudio_log_quiet e w :
  wp (MacCoreaudio_log jvm e) (fun _ w' => exists l, quiet w w' l) w.
Proof.
  destruct w as [vm cls mid att tr].
  unfold MacCoreaudio_log. generalize (vsnprintf 2048 e). intros error.
  steps; solve_quiet.
Qed.

Lemma wp_log e (Q : option unit -> World -> Prop) w :
  (forall r w' l, quiet w w' l -> Q r w') ->
  wp (MacCoreaudio_log jvm e) Q w.
Proof.
  intros H. eapply wp_weaken; [apply MacCoreaudio_log_quiet|].
  intros r w' [l Hl]. eauto.
Qed.

Lemma MacCoreaudio_callbackMethod_quiet buffer bufferLength callback
    callbackMethod w :
  wp (MacCoreaudio_callbackMethod jvm buffer bufferLength callback
        callbackMethod)
     (fun _ w' => exists l, quiet w w' l) w.
Proof.
  destruct w as [vm cls mid att tr].
  unfold MacCoreaudio_callbackMethod.
  steps; solve_quiet.
Qed.

Lemma MacCoreaudio_devicesChangedCallbackMethod_quiet w :
  wp (MacCoreaudio_devicesChangedCallbackMethod jvm)
     (fun _ w' => exists l, quiet w w' l) w.
Proof.
  unfold MacCoreaudio_devicesChangedCallbackMethod, log_literal.
  apply wp_bind, wp_log. intros [[]|] w1 l1 H1; [|now exists l1].
  apply (wp_weaken _ (fun _ w' => exists l, quiet w1 w' l)).
  2: { intros r w2 [l2 H2]. exists (l1 ++ l2).
       eapply quiet_trans; eassumption. }
  clear. destruct w1 as [vm cls mid att tr].
  steps; solve_quiet.
Qed.

Ltac eqb_facts :=
  repeat match goal with
         | H : (_ =? _) = true |- _ => apply Z.eqb_eq in H
         | H : (_ =? _) = false |- _ => apply Z.eqb_neq in H
         end.

Lemma init_outcome_after_quiet w w1 w2 l1 l2 :
  quiet w w1 l1 -> init_outcome w1 w2 l2 -> init_outcome w w2 (l1 ++ l2).
Proof.
  intros (E1 & V1 & [C1 M1] & (R1 & T1 & G1)) (E2 & V2 & Hres & Hun & Hcons).
  unfold init_outcome, hotplug_resolved, hotplug_consistent, globals_kept,
    no_hotplug_events in *.
  rewrite C1, M1 in *. rewrite !count_app, R1, T1, G1. cbn [Nat.add].
  split; [eapply Effect_trans; eassumption|].
  split; [congruence|]. auto.
Qed.

Lemma Effect_refl w : Effect w w [].
Proof.
  constructor; [now rewrite app_nil_r | reflexivity | now split].
Qed.

Lemma init_outcome_refl w : init_outcome w w [].
Proof.
  unfold init_outcome, globals_kept, no_hotplug_events.
  split; [apply Effect_refl|]. split; [reflexivity|].
  split; [intros; repeat split; reflexivity|].
  split; [intros; left; repeat split; reflexivity | auto].
Qed.

(** Evaluate the counts over the events of one path. *)
Ltac counts :=
  repeat match goal with
         | |- context [count ?p ?l] =>
             let v := eval cbv in (count p l) in
             change (count p l) with v
         end.

Lemma MacCoreaudio_initHotplug_outcome w :
  wp (MacCoreaudio_initHotplug jvm)
     (fun _ w' => exists l, init_outcome w w' l) w.
Proof.
  unfold MacCoreaudio_initHotplug, log_literal.
  apply wp_bind, wp_log. intros [[]|] w1 l1 H1.
  2: { exists l1. rewrite <- (app_nil_r l1).
       eapply init_outcome_after_quiet; [eassumption|].
       apply init_outcome_refl. }
  apply (wp_weaken _ (fun _ w' => exists l, init_outcome w1 w' l)).
  2: { intros r w2 [l2 H2]. exists (l1 ++ l2).
       eapply init_outcome_after_quiet; eassumption. }
  clear. destruct w1 as [vm cls mid att tr].
  steps.
  all: normalize_trace; eexists; split; [solve_effect|].
  all: split; [reflexivity|].
  all: unfold hotplug_resolved, hotplug_consistent, globals_kept,
         no_hotplug_events; cbn [MacCoreaudio_devicesChangedCallbackClass
         MacCoreaudio_devicesChangedCallbackMethodID].
  all: eqb_facts; counts.
  all: intuition (auto; try congruence).
Qed.

Lemma free_outcome_after_quiet r w w1 w2 l1 l2 :
  quiet w w1 l1 -> free_outcome r w1 w2 l2 -> free_outcome r w w2 (l1 ++ l2).
Proof.
  intros (E1 & V1 & [C1 M1] & (R1 & T1 & G1)) (E2 & V2 & R2 & H).
  unfold free_outcome, globals_kept in *.
  rewrite count_app, R1, R2.
  split; [eapply Effect_trans; eassumption|].
  split; [congruence|]. split; [reflexivity|].
  destruct r; [assumption|]. destruct H. split; congruence.
Qed.

Lemma MacCoreaudio_freeHotplug_outcome w :
  wp (MacCoreaudio_freeHotplug jvm)
     (fun r w' => exists l, free_outcome r w w' l) w.
Proof.
  unfold MacCoreaudio_freeHotplug, log_literal.
  apply wp_bind, wp_log. intros [[]|] w1 l1 H1.
  2: { exists l1. rewrite <- (app_nil_r l1).
       eapply free_outcome_after_quiet; [eassumption|].
       split; [apply Effect_refl|]. repeat split; reflexivity. }
  apply (wp_weaken _ (fun r w' => exists l, free_outcome r w1 w' l)).
  2: { intros r w2 [l2 H2]. exists (l1 ++ l2).
       eapply free_outcome_after_quiet; eassumption. }
  clear. destruct w1 as [vm cls mid att tr].
  steps.
  all: normalize_trace; eexists; split; [solve_effect|].
  all: split; [reflexivity|]; split; [reflexivity|].
  all: repeat split; reflexivity.
Qed.

(** *** Every entry point *)

Lemma sound_trans w w1 w2 l1 l2 :
  sound w w1 l1 -> sound w1 w2 l2 -> sound w w2 (l1 ++ l2).
Proof.
  intros [E1 C1] [E2 C2]. split; [eapply Effect_trans; eassumption | auto].
Qed.

Lemma sound_refl w : sound w w [].
Proof. split; [apply Effect_refl | auto]. Qed.

Lemma always_sound_ret {A} (a : A) : always_sound (ret a).
Proof. intros w. exists []. apply sound_refl. Qed.

Lemma always_sound_bind {A B} (m : M A) (k : A -> M B) :
  always_sound m -> (forall a, always_sound (k a)) -> always_sound (bind m k).
Proof.
  intros Hm Hk w. apply wp_bind.
  eapply wp_weaken; [apply Hm|]. intros [a|] w1 [l1 H1]; [|now exists l1].
  eapply wp_weaken; [apply Hk|]. intros r w2 [l2 H2].
  exists (l1 ++ l2). eapply sound_trans; eassumption.
Qed.

Lemma quiet_sound w w' l : quiet w w' l -> sound w w' l.
Proof.
  intros (E & _ & [C M] & _). split; [assumption|].
  unfold hotplug_consistent. now rewrite C, M.
Qed.

Lemma always_sound_set_VM vm : always_sound (set_VM vm).
Proof.
  intros [vm0 cls mid att tr]. unfold wp, set_VM; cbn [fst snd].
  exists []. split; [|auto].
  constructor; cbn [trace thread_attached];
    [now rewrite app_nil_r | reflexivity | now split].
Qed.

Lemma always_sound_log e : always_sound (MacCoreaudio_log jvm e).
Proof.
  intros w. eapply wp_weaken; [apply MacCoreaudio_log_quiet|].
  intros r w' [l H]. exists l. now apply quiet_sound.
Qed.

Lemma always_sound_initHotplug : always_sound (MacCoreaudio_initHotplug jvm).
Proof.
  intros w. eapply wp_weaken; [apply MacCoreaudio_initHotplug_outcome|].
  intros r w' [l (E & _ & _ & _ & C)]. exists l. now split.
Qed.

Lemma always_sound_freeHotplug : always_sound (MacCoreaudio_freeHotplug jvm).
Proof.
  intros w. eapply wp_weaken; [apply MacCoreaudio_freeHotplug_outcome|].
  intros r w' [l (E & _ & _ & H)]. exists l. split; [assumption|].
  unfold hotplug_consistent.
  destruct r; [destruct H as [-> ->]; now split|].
  destruct H as [-> ->]. auto.
Qed.

Ltac sound_seq :=
  repeat (cbv beta;
          lazymatch goal with
          | |- always_sound (bind _ _) =>
              apply always_sound_bind; [|intros ?]
          end).

Lemma cross_sound c : always_sound (cross jvm c).
Proof.
  destruct c; cbn [cross]; unfold forget, JNI_OnLoad, JNI_OnUnload, log_literal.
  - sound_seq;
      auto using always_sound_set_VM, always_sound_log,
        always_sound_initHotplug, always_sound_ret.
  - sound_seq;
      auto using always_sound_set_VM, always_sound_log,
        always_sound_freeHotplug.
  - apply always_sound_initHotplug.
  - apply always_sound_freeHotplug.
  - intros w. eapply wp_weaken;
      [apply MacCoreaudio_devicesChangedCallbackMethod_quiet|].
    intros r w' [l H]. exists l. now apply quiet_sound.
  - sound_seq; [|apply always_sound_ret].
    intros w. eapply wp_weaken; [apply MacCoreaudio_callbackMethod_quiet|].
    intros r w' [l H]. exists l. now apply quiet_sound.
  - apply always_sound_log.
Qed.

(** *** The claims *)

Lemma run_calls_attached cs : forall w,
  thread_attached w = true ->
  thread_attached (run jvm (map Call cs) w) = true
  /\ exists l, trace (run jvm (map Call cs) w) = trace w ++ l
               /\ count is_Detach l = 0%nat.
Proof.
  induction cs as [|c cs IH]; intros w Hw; cbn [map run].
  - split; [assumption|]. exists []. now rewrite app_nil_r.
  - cbn [perform]. pose proof (cross_sound c w) as H. unfold wp in H.
    destruct H as [l1 [[T J A] _]]. destruct (A Hw) as [Hw1 C1].
    destruct (cross jvm c w) as [[u|] w1]; cbn [fst snd] in *.
    + destruct (IH w1 Hw1) as [Hw2 [l2 [T2 C2]]]. split; [assumption|].
      exists (l1 ++ l2). rewrite T2, T, app_assoc, count_app, C1, C2. auto.
    + split; [assumption|]. exists l1. auto.
Qed.

(** C4.  Whatever entry point is called, in whatever state and on
    whatever thread: every [DetachCurrentThread] of the call comes after an
    [AttachCurrentThreadAsDaemon] of the same call that succeeded, with no
    other detach in between; and a thread that holds a JNI environment on
    entry holds it on exit and has not been detached at all.  Hence, over
    any sequence of calls on a thread that is attached at the start, the
    thread is attached after each of them and is never detached. *)
Theorem guard_detaches_only_what_it_attached :
  (forall c w,
     exists l,
       trace (snd (cross jvm c w)) = trace w ++ l
       /\ detach_justified false l = true
       /\ (thread_attached w = true ->
           thread_attached (snd (cross jvm c w)) = true
           /\ count is_Detach l = 0%nat))
  /\ (forall cs w,
       thread_attached w = true ->
       thread_attached (run jvm (map Call cs) w) = true
       /\ exists l, trace (run jvm (map Call cs) w) = trace w ++ l
                    /\ count is_Detach l = 0%nat).
Proof.
  split; [|exact run_calls_attached].
  intros c w. pose proof (cross_sound c w) as H. unfold wp in H.
  destruct H as [l [[T J A] _]]. exists l. auto.
Qed.

Lemma perform_consistent s w :
  hotplug_consistent w -> hotplug_consistent (snd (perform jvm s w)).
Proof.
  destruct s as [c|a]; cbn [perform].
  - pose proof (cross_sound c w) as H. unfold wp in H.
    destruct H as [l [_ C]]. exact C.
  - destruct w; exact (fun H => H).
Qed.

Lemma run_consistent steps : forall w,
  hotplug_consistent w -> hotplug_consistent (run jvm steps w).
Proof.
  induction steps as [|s steps IH]; intros w Hw; cbn [run]; [assumption|].
  pose proof (perform_consistent s w Hw) as H.
  destruct (perform jvm s w) as [[u|] w']; cbn [snd] in H; auto.
Qed.

(** C10.  The two hotplug statics are both null or both non-null in every
    state the module can reach: in the state before the module is loaded,
    and after every run of entry points (module load and unload, hotplug
    initialization and release, device-change events, relays, log
    messages) on threads attached or not, whatever the JVM answers; and
    every such run keeps the property from any state that has it; a
    release of the hotplug that returns leaves both null.  So the joint
    test of the device-change handler never sees one static set and the
    other null. *)
Theorem hotplug_statics_consistent steps :
  (forall attached, hotplug_consistent (run jvm steps (unloaded attached)))
  /\ (forall w, hotplug_consistent w -> hotplug_consistent (run jvm steps w))
  /\ (forall w,
       fst (MacCoreaudio_freeHotplug jvm w) = Some tt ->
       MacCoreaudio_devicesChangedCallbackClass
         (snd (MacCoreaudio_freeHotplug jvm w)) = NULL
       /\ MacCoreaudio_devicesChangedCallbackMethodID
            (snd (MacCoreaudio_freeHotplug jvm w)) = NULL).
Proof.
  split; [|split; [apply run_consistent|]].
  - intros attached. apply run_consistent.
    unfold hotplug_consistent, unloaded. cbn. tauto.
  - intros w Hret.
    pose proof (MacCoreaudio_freeHotplug_outcome w) as H. unfold wp in H.
    destruct H as [l (_ & _ & _ & H)]. rewrite Hret in H. exact H.
Qed.

Lemma ATTACH_globals_kept w : globals_kept w (snd (ATTACH jvm w)).
Proof.
  apply (wp_ATTACH (fun _ w' => globals_kept w w'));
    intros; destruct w; split; reflexivity.
Qed.

(** In a resolved state [MacCoreaudio_initHotplug] is its log message and
    an empty guarded section. *)
Lemma initHotplug_resolved_run w :
  hotplug_resolved w ->
  MacCoreaudio_initHotplug jvm w
  = bind (log_literal jvm
            "MacCoreAudio_util_initHotplug: Initializing device hotplug")
      (fun _ => bind (ATTACH jvm) (fun flags => DETACH (snd flags))) w.
Proof.
  intros [Hc Hm]. unfold MacCoreaudio_initHotplug, log_literal, bind.
  pose proof (MacCoreaudio_log_quiet
                (list_byte_of_string
                   "MacCoreAudio_util_initHotplug: Initializing device hotplug")
                w) as HL.
  unfold wp in HL. destruct HL as [l1 (_ & _ & [C1 M1] & _)].
  destruct (MacCoreaudio_log jvm _ w) as [[[]|] w1]; [|reflexivity].
  cbn [snd] in C1, M1.
  pose proof (ATTACH_globals_kept w1) as [C2 M2].
  destruct (ATTACH jvm w1) as [[[envAttached shouldDetach]|] w2];
    [|reflexivity].
  cbn [snd] in *. destruct envAttached; [|reflexivity].
  unfold gets. rewrite C2, M2, C1, M1.
  apply Z.eqb_neq in Hc. rewrite Hc. reflexivity.
Qed.

(** C7.  Once the two hotplug statics are resolved, a call of
    [MacCoreaudio_initHotplug] looks nothing up, takes no global reference,
    does not register with the native hotplug subsystem, and leaves the
    statics as they are: it is its log message (whose own look-ups are not
    cached) and an empty guarded section.  Hence two calls in a row, the
    first of which starts unresolved and resolves the target, look the
    entry point up once, take one global reference and register once; and
    two calls in a row from the unresolved state register once if the
    target is resolved in the end, and not at all otherwise. *)
Theorem initHotplug_idempotent :
  (forall w,
     hotplug_resolved w ->
     let w' := snd (MacCoreaudio_initHotplug jvm w) in
     exists l,
       trace w' = trace w ++ l
       /\ globals_kept w w'
       /\ count is_registration l = 0%nat
       /\ count is_target_resolution l = 0%nat
       /\ count is_NewGlobalRef l = 0%nat)
  /\ (forall w,
       MacCoreaudio_devicesChangedCallbackClass w = NULL ->
       MacCoreaudio_devicesChangedCallbackMethodID w = NULL ->
       let w1 := snd (MacCoreaudio_initHotplug jvm w) in
       let w2 := snd (MacCoreaudio_initHotplug jvm w1) in
       hotplug_resolved w1 ->
       exists l,
         trace w2 = trace w ++ l
         /\ globals_kept w1 w2
         /\ count is_registration l = 1%nat
         /\ count is_target_resolution l = 1%nat
         /\ count is_NewGlobalRef l = 1%nat)
  /\ (forall w,
       MacCoreaudio_devicesChangedCallbackClass w = NULL ->
       MacCoreaudio_devicesChangedCallbackMethodID w = NULL ->
       let w1 := snd (MacCoreaudio_initHotplug jvm w) in
       let w2 := snd (MacCoreaudio_initHotplug jvm w1) in
       exists l,
         trace w2 = trace w ++ l
         /\ ((hotplug_resolved w2 /\ count is_registration l = 1%nat)
             \/ (globals_kept w w2 /\ count is_registration l = 0%nat)))
  /\ (forall w,
       hotplug_resolved w ->
       MacCoreaudio_initHotplug jvm w
       = bind (log_literal jvm
                 "MacCoreAudio_util_initHotplug: Initializing device hotplug")
           (fun _ => bind (ATTACH jvm) (fun flags => DETACH (snd flags))) w).
Proof.
  split; [|split; [|split; [|exact initHotplug_resolved_run]]].
  - intros w Hres w'. subst w'.
    pose proof (MacCoreaudio_initHotplug_outcome w) as H. unfold wp in H.
    destruct H as [l (E & _ & Hr & _)].
    destruct (Hr Hres) as [K (R & T & G)].
    exists l. repeat split; try assumption; apply E || apply K.
  - intros w Hc Hm w1 w2 Hres. subst w1 w2.
    pose proof (MacCoreaudio_initHotplug_outcome w) as H1. unfold wp in H1.
    destruct H1 as [l1 (E1 & _ & _ & Hun & _)].
    pose proof (MacCoreaudio_initHotplug_outcome
                  (snd (MacCoreaudio_initHotplug jvm w))) as H2.
    unfold wp in H2. destruct H2 as [l2 (E2 & _ & Hr & _)].
    destruct (Hr Hres) as [K (R2 & T2 & G2)].
    destruct (Hun Hc Hm) as [[[C M] _] | (_ & R1 & T1 & G1)].
    { destruct Hres as [Hres _]. rewrite C in Hres. contradiction. }
    exists (l1 ++ l2). rewrite !count_app, R1, R2, T1, T2, G1, G2.
    repeat split; try reflexivity; try apply K.
    rewrite (eff_trace _ _ _ E2), (eff_trace _ _ _ E1). now rewrite app_assoc.
  - intros w Hc Hm w1 w2. subst w1 w2.
    pose proof (MacCoreaudio_initHotplug_outcome w) as H1. unfold wp in H1.
    destruct H1 as [l1 (E1 & _ & _ & Hun1 & _)].
    pose proof (MacCoreaudio_initHotplug_outcome
                  (snd (MacCoreaudio_initHotplug jvm w))) as H2.
    unfold wp in H2. destruct H2 as [l2 (E2 & _ & Hr2 & Hun2 & _)].
    exists (l1 ++ l2). split.
    { rewrite (eff_trace _ _ _ E2), (eff_trace _ _ _ E1).
      now rewrite app_assoc. }
    rewrite count_app.
    destruct (Hun1 Hc Hm) as [[[C M] R1] | (Hres & R1 & _)].
    + rewrite C, M in Hun2.
      destruct (Hun2 Hc Hm) as [[[C2 M2] R2] | (Hres2 & R2 & _)].
      * right. rewrite R1, R2. split; [|reflexivity].
        split; congruence.
      * left. rewrite R1, R2. now split.
    + destruct (Hr2 Hres) as [[C2 M2] (R2 & _)].
      left. rewrite R1, R2. split; [|reflexivity].
      destruct Hres. split; congruence.
Qed.

(** *** The relay *)

Lemma SetByteArrayRegion_whole B w :
  SetByteArrayRegion (Some (repeat x00 (List.length B))) 0
    (Z.of_nat (List.length B)) B w
  = (Some B, w).
Proof.
  unfold SetByteArrayRegion. rewrite repeat_length.
  replace (0 <? 0) with false by reflexivity.
  replace (Z.of_nat (List.length B) <? 0) with false
    by (symmetry; apply Z.ltb_ge; lia).
  replace (Z.of_nat (List.length B) <? 0 + Z.of_nat (List.length B))
    with false by (symmetry; apply Z.ltb_ge; lia).
  replace (Z.of_nat (List.length B) <? Z.of_nat (List.length B))
    with false by (symmetry; apply Z.ltb_ge; lia).
  cbn [orb]. unfold ret. f_equal. f_equal.
  rewrite Z.add_0_l, Nat2Z.id. cbn [Z.to_nat firstn app].
  rewrite firstn_all, skipn_all2 by (rewrite repeat_length; lia).
  apply app_nil_r.
Qed.

Lemma memcpy_whole dst src w :
  List.length src = List.length dst ->
  memcpy dst src (Z.of_nat (List.length dst)) w = (Some src, w).
Proof.
  intros H. unfold memcpy. rewrite H.
  replace (Z.of_nat (List.length dst) <? 0) with false
    by (symmetry; apply Z.ltb_ge; lia).
  replace (Z.of_nat (List.length dst) <? Z.of_nat (List.length dst))
    with false by (symmetry; apply Z.ltb_ge; lia).
  cbn [orb]. unfold ret. f_equal. f_equal.
  rewrite Nat2Z.id, <- H, firstn_all, skipn_all2 by lia.
  apply app_nil_r.
Qed.

(** The guard when a context can be obtained, and when none can. *)
Lemma ATTACH_available w :
  MacCoreaudio_VM w <> NULL -> context_available jvm w = true ->
  exists l,
    ATTACH jvm w
    = (Some (true, negb (thread_attached w)),
       set_trace (trace w ++ l) (set_thread_attached true w))
    /\ count is_managed_call l = 0%nat.
Proof.
  intros Hvm Hctx.
  rewrite (surjective_pairing (ATTACH jvm w)).
  apply (wp_ATTACH
           (fun r w' => exists l,
              (r, w') = (Some (true, negb (thread_attached w)),
                         set_trace (trace w ++ l) (set_thread_attached true w))
              /\ count is_managed_call l = 0%nat));
    unfold context_available in Hctx; destruct w as [vm cls mid att tr];
    world; intros; subst; try congruence.
  - now exists [EvGetEnv JNI_OK].
  - eexists. split; reflexivity.
Qed.

Lemma ATTACH_unavailable w :
  MacCoreaudio_VM w <> NULL -> context_available jvm w = false ->
  exists l,
    ATTACH jvm w = (Some (false, false), set_trace (trace w ++ l) w)
    /\ count is_managed_call l = 0%nat.
Proof.
  intros Hvm Hctx.
  rewrite (surjective_pairing (ATTACH jvm w)).
  apply (wp_ATTACH
           (fun r w' => exists l,
              (r, w') = (Some (false, false), set_trace (trace w ++ l) w)
              /\ count is_managed_call l = 0%nat));
    unfold context_available in Hctx; destruct w as [vm cls mid att tr];
    world; intros; subst; try congruence.
  - now exists [EvGetEnv JNI_EVERSION].
  - eexists. split; reflexivity.
Qed.

Lemma callbackMethod_run B callback callbackMethod w :
  MacCoreaudio_VM w <> NULL ->
  context_available jvm w = true ->
  callback <> NULL -> callbackMethod <> NULL ->
  (forall h, new_byte_array jvm h (Z.of_nat (List.length B)) = true) ->
  (forall h, get_byte_array_elements jvm h = true) ->
  (forall h, List.length (java_callback jvm h callback callbackMethod B
                            (Z.of_nat (List.length B)))
             = List.length B) ->
  exists h l w',
    MacCoreaudio_callbackMethod jvm B (Z.of_nat (List.length B)) callback
      callbackMethod w
    = (Some (java_callback jvm h callback callbackMethod B
               (Z.of_nat (List.length B))), w')
    /\ trace w' = trace w ++ l
    /\ count is_managed_call l = 1%nat
    /\ In (EvCallVoidMethod callback callbackMethod B
             (Z.of_nat (List.length B))) l.
Proof.
  intros Hvm Hctx Hcb Hm Hnew Hget Hlen.
  destruct (ATTACH_available w Hvm Hctx) as [l0 [HA C0]].
  unfold MacCoreaudio_callbackMethod, bind. rewrite HA. cbn [negb].
  unfold NewByteArray. rewrite Hnew.
  replace (0 <=? Z.of_nat (List.length B)) with true
    by (symmetry; apply Z.leb_le; lia).
  cbn [andb]. rewrite Nat2Z.id, SetByteArrayRegion_whole.
  unfold CallVoidMethod.
  apply Z.eqb_neq in Hcb, Hm. rewrite Hcb, Hm. cbn [orb].
  unfold GetByteArrayElements. rewrite Hget.
  rewrite memcpy_whole by apply Hlen.
  apply Z.eqb_neq in Hvm.
  destruct w as [vm cls mid att tr]. world.
  unfold DETACH, DetachCurrentThread, ret. world.
  destruct att; cbn [negb]; world; rewrite ?Hvm; world;
    normalize_trace; eexists _, _, _; (split; [reflexivity|]);
    cbn [trace]; (split; [reflexivity|]); rewrite !count_app, C0;
    (split; [reflexivity|]); apply in_or_app; right; cbn; tauto.
Qed.

(** C5.  With a native buffer [B] of length [L], a valid callback target,
    a context available, a JVM that can allocate the array, and a Java
    method that (as Java arrays do) keeps the length of the array:
    [MacCoreaudio_callbackMethod] returns, the Java method has been called
    exactly once, on a copy of [B], and the native buffer holds what the
    Java method left in the array.  So a method that leaves the array as it
    is leaves the buffer equal to [B], and one that overwrites it with a
    pattern leaves that pattern in the buffer. *)
Theorem callbackMethod_copies_back B L callback callbackMethod w :
  L = Z.of_nat (List.length B) ->
  MacCoreaudio_VM w <> NULL ->
  context_available jvm w = true ->
  callback <> NULL -> callbackMethod <> NULL ->
  (forall h, new_byte_array jvm h L = true) ->
  (forall h, get_byte_array_elements jvm h = true) ->
  (forall h, List.length (java_callback jvm h callback callbackMethod B L)
             = List.length B) ->
  let run := MacCoreaudio_callbackMethod jvm B L callback callbackMethod w in
  (exists h, fst run = Some (java_callback jvm h callback callbackMethod B L))
  /\ (exists l, trace (snd run) = trace w ++ l
                /\ count is_managed_call l = 1%nat
                /\ In (EvCallVoidMethod callback callbackMethod B L) l)
  /\ ((forall h, java_callback jvm h callback callbackMethod B L = B) ->
      fst run = Some B)
  /\ (forall pattern,
        (forall h, java_callback jvm h callback callbackMethod B L = pattern) ->
        fst run = Some pattern).
Proof.
  intros -> Hvm Hctx Hcb Hm Hnew Hget Hlen run.
  destruct (callbackMethod_run B callback callbackMethod w
              Hvm Hctx Hcb Hm Hnew Hget Hlen) as (h & l & w' & E & T & C & I).
  subst run. rewrite E. cbn [fst snd].
  split; [now exists h|]. split; [now exists l|].
  split; [intros H; now rewrite H | intros P H; now rewrite H].
Qed.

(** C6.  When no context can be obtained (the thread is not attached and
    attaching fails, or the JVM rejects the JNI version), the relay returns
    with the native buffer as it was, having made no call into Java and
    having left the attachment of the thread as it was. *)
Theorem callbackMethod_without_context B L callback callbackMethod w :
  MacCoreaudio_VM w <> NULL ->
  context_available jvm w = false ->
  let run := MacCoreaudio_callbackMethod jvm B L callback callbackMethod w in
  fst run = Some B
  /\ thread_attached (snd run) = thread_attached w
  /\ exists l, trace (snd run) = trace w ++ l
               /\ count is_managed_call l = 0%nat.
Proof.
  intros Hvm Hctx run. subst run.
  destruct (ATTACH_unavailable w Hvm Hctx) as [l [HA C]].
  unfold MacCoreaudio_callbackMethod, bind. rewrite HA. cbn [negb fst snd ret].
  destruct w; cbn. split; [reflexivity|]. split; [reflexivity|]. now exists l.
Qed.

(** When the class cannot be found, [MacCoreaudio_log] returns without any
    call into Java. *)
Lemma MacCoreaudio_log_class_unresolved e w :
  MacCoreaudio_VM w <> NULL ->
  (forall h name, find_class jvm h name = NULL) ->
  fst (MacCoreaudio_log jvm e w) = Some tt
  /\ exists l, trace (snd (MacCoreaudio_log jvm e w)) = trace w ++ l
               /\ count is_managed_call l = 0%nat.
Proof.
  intros Hvm Hfc.
  apply (wp_run (MacCoreaudio_log jvm e)
           (fun r w' => r = Some tt
                        /\ exists l, trace w' = trace w ++ l
                                     /\ count is_managed_call l = 0%nat)).
  destruct w as [vm cls mid att tr]. world.
  unfold MacCoreaudio_log. generalize (vsnprintf 2048 e). intros error.
  steps; try congruence;
    try (rewrite Hfc in *; discriminate);
    normalize_trace; (split; [reflexivity|]); eexists;
    (split; [solve_trace | reflexivity]).
Qed.

(** *** Further properties of the bridge *)

Lemma wp_and {A} (m : M A) (P Q : option A -> World -> Prop) w :
  wp m P w -> wp m Q w -> wp m (fun r w' => P r w' /\ Q r w') w.
Proof. unfold wp. auto. Qed.

Ltac solve_counts :=
  unfold count;
  cbn [filter List.length is_Attach_ok is_Detach is_notification
       is_unregistration is_DeleteGlobalRef is_log_call is_managed_call
       is_registration];
  use_eqs;
  cbn [filter List.length];
  reflexivity.

Ltac solve_restored :=
  let H := fresh in
  intros H; first [now contradiction H | split; [reflexivity | solve_counts]].

(** What [MacCoreaudio_log] leaves behind, beyond [quiet]. *)
Lemma MacCoreaudio_log_restores e w :
  wp (MacCoreaudio_log jvm e)
     (fun r w' => exists l,
        trace w' = trace w ++ l
        /\ attachment_restored r w w' l
        /\ no_hotplug_release l) w.
Proof.
  destruct w as [vm cls mid att tr].
  unfold MacCoreaudio_log. generalize (vsnprintf 2048 e). intros error.
  steps; normalize_trace; eexists; (split; [solve_trace|]);
    (split; [solve_restored | repeat split; reflexivity]).
Qed.

Lemma MacCoreaudio_log_summary e w :
  wp (MacCoreaudio_log jvm e)
     (fun r w' => exists l,
        quiet w w' l
        /\ attachment_restored r w w' l
        /\ no_hotplug_release l) w.
Proof.
  pose proof (MacCoreaudio_log_quiet e w) as Q.
  pose proof (MacCoreaudio_log_restores e w) as R.
  unfold wp in *. destruct Q as [l1 Q], R as [l2 (T & R & N)].
  assert (l1 = l2) as ->.
  { destruct Q as [[T1 _ _] _]. rewrite T1 in T.
    now apply app_inv_head in T. }
  exists l2. auto.
Qed.

Lemma devicesChanged_body_outcome w :
  wp ('(envAttached, shouldDetach) <- ATTACH jvm ;;
      if negb envAttached then ret tt else
      class <- gets MacCoreaudio_devicesChangedCallbackClass ;;
      methodID <- gets MacCoreaudio_devicesChangedCallbackMethodID ;;
      (if negb (class =? NULL) && negb (methodID =? NULL)
       then CallStaticVoidMethod class methodID None
       else ret tt) ;;
      DETACH shouldDetach)
     (fun r w' => exists l, notification_outcome jvm r w w' l) w.
Proof.
  destruct w as [vm cls mid att tr].
  steps; normalize_trace; eexists; (split; [solve_trace|]);
    (split; [solve_restored|]).
  all: unfold hotplug_resolved; world.
  all: eqb_facts; counts.
  all: split; [lia|].
  all: split;
    [ intros Hc; first [discriminate Hc | split; [split; assumption | cbn; tauto]]
    | intros Hr Hres Hctx;
      first [ reflexivity | discriminate Hr | destruct Hres; congruence
            | congruence | now rewrite Hctx in * ] ].
Qed.

Lemma freeHotplug_body_outcome w :
  wp (MacCoreaudio_uninitializeHotplug ;;
      '(envAttached, shouldDetach) <- ATTACH jvm ;;
      (if negb envAttached then ret tt else
         class <- gets MacCoreaudio_devicesChangedCallbackClass ;;
         DeleteGlobalRef class ;;
         DETACH shouldDetach) ;;
      set_devicesChangedCallbackClass NULL ;;
      set_devicesChangedCallbackMethodID NULL)
     (fun r w' => exists l, release_outcome jvm r w w' l) w.
Proof.
  destruct w as [vm cls mid att tr].
  steps; normalize_trace; eexists; (split; [solve_trace|]);
    (split; [solve_restored|]).
  all: world; eqb_facts; counts.
  all: do 4 (split; [reflexivity|]); split; [lia|].
  all: split; [intros Hc; first [discriminate Hc | cbn; tauto]|].
  all: split; intros Hr Hctx;
    first [ reflexivity | discriminate Hr | congruence
          | now rewrite Hctx in *
          | exfalso; eapply Hctx; eassumption ].
Qed.

(** X14.  A device-change event notifies the hotplug target at most
    once, and only the target that is stored: the class and the entry
    point are those of the two statics, both non-null. When the target
    is resolved and a context can be obtained, a handler that returns
    has notified it exactly once. The log message the handler starts
    with is no notification. *)
Theorem devicesChanged_notifies_once w :
  let run := MacCoreaudio_devicesChangedCallbackMethod jvm w in
  exists l,
    trace (snd run) = trace w ++ l
    /\ (count is_notification l <= 1)%nat
    /\ (count is_notification l = 1%nat ->
        hotplug_resolved w
        /\ In (EvCallStaticVoidMethod
                 (MacCoreaudio_devicesChangedCallbackClass w)
                 (MacCoreaudio_devicesChangedCallbackMethodID w) None) l)
    /\ (fst run = Some tt -> hotplug_resolved w ->
        (if thread_attached w then supports_JNI_1_6 jvm = true
         else forall h, attach jvm h = 0) ->
        count is_notification l = 1%nat).
Proof.
  cbv zeta.
  apply (wp_run (MacCoreaudio_devicesChangedCallbackMethod jvm)
           (fun r w' => exists l,
              trace w' = trace w ++ l
              /\ (count is_notification l <= 1)%nat
              /\ (count is_notification l = 1%nat ->
                  hotplug_resolved w
                  /\ In (EvCallStaticVoidMethod
                           (MacCoreaudio_devicesChangedCallbackClass w)
                           (MacCoreaudio_devicesChangedCallbackMethodID w)
                           None) l)
              /\ (r = Some tt -> hotplug_resolved w ->
                  (if thread_attached w then supports_JNI_1_6 jvm = true
                   else forall h, attach jvm h = 0) ->
                  count is_notification l = 1%nat))).
  unfold MacCoreaudio_devicesChangedCallbackMethod, log_literal.
  apply wp_bind. eapply wp_weaken; [apply MacCoreaudio_log_summary|].
  intros [[]|] w1 [l1 (([T1 _ _] & _ & [C1 M1] & _) & R1 & (N1 & _))].
  - eapply wp_weaken; [apply devicesChanged_body_outcome|].
    intros r w2 [l2 (T2 & _ & Le & Hone & Hret)].
    destruct R1 as [A1 _]; [discriminate|].
    unfold hotplug_resolved in *. rewrite C1, M1, A1 in *.
    exists (l1 ++ l2). rewrite count_app, N1. cbn [Nat.add].
    split; [now rewrite T2, T1, app_assoc|].
    split; [assumption|]. split; [|assumption].
    intros H. destruct (Hone H) as [Hres Hin].
    split; [assumption | apply in_or_app; now right].
  - exists l1. rewrite N1. split; [assumption|]. split; [lia|].
    split; discriminate.
Qed.

Lemma released_after_unregistration_skip l1 : forall seen l2,
  count is_DeleteGlobalRef l1 = 0%nat ->
  count is_unregistration l1 = 0%nat ->
  released_after_unregistration seen (l1 ++ l2)
  = released_after_unregistration seen l2.
Proof.
  induction l1 as [|e l1 IH]; intros seen l2 D U; [reflexivity|].
  rewrite count_cons in D, U.
  destruct e; cbn in D, U |- *; try discriminate; now apply IH.
Qed.

Lemma attachment_restored_trans {A B} (a : A) (r : option B) w w1 w2 l1 l2 :
  attachment_restored (Some a) w w1 l1 -> attachment_restored r w1 w2 l2 ->
  attachment_restored r w w2 (l1 ++ l2).
Proof.
  intros H1 H2 Hr. destruct H1 as [A1 C1]; [discriminate|].
  destruct (H2 Hr) as [A2 C2].
  split; [congruence | rewrite !count_app; lia].
Qed.

Lemma release_outcome_after_log r w w1 w2 l1 l2 :
  quiet w w1 l1 -> attachment_restored (Some tt) w w1 l1 ->
  no_hotplug_release l1 ->
  release_outcome jvm r w1 w2 l2 -> release_outcome jvm r w w2 (l1 ++ l2).
Proof.
  intros ([T1 _ _] & _ & [C1 M1] & (_ & _ & G1)) R1 (N1 & U1 & D1)
         (T2 & R2 & U2 & N2 & G2 & O2 & Le & Hin & Hyes & Hno).
  pose proof (attachment_restored_trans _ _ _ _ _ _ _ R1 R2) as R.
  destruct R1 as [A1 _]; [discriminate|].
  unfold release_outcome. rewrite C1, A1 in *.
  rewrite !count_app, U1, D1, N1, G1, released_after_unregistration_skip
    by assumption.
  cbn [Nat.add].
  split; [now rewrite T2, T1, app_assoc|].
  repeat (split; [assumption|]).
  split; [|split; assumption].
  intros H. apply in_or_app. right. auto.
Qed.

Lemma MacCoreaudio_freeHotplug_release w :
  wp (MacCoreaudio_freeHotplug jvm)
     (fun r w' => r = Some tt -> exists l, release_outcome jvm r w w' l) w.
Proof.
  unfold MacCoreaudio_freeHotplug, log_literal.
  apply wp_bind. eapply wp_weaken; [apply MacCoreaudio_log_summary|].
  intros [[]|] w1 [l1 (Q1 & R1 & N1)]; [|discriminate].
  eapply wp_weaken; [apply freeHotplug_body_outcome|].
  intros r w2 [l2 H2] _. exists (l1 ++ l2).
  eapply release_outcome_after_log; eassumption.
Qed.

(** X15.  A release of the hotplug that returns has unregistered from
    the native hotplug subsystem exactly once, and before it gave up the
    global reference to the class of the target; it gives up at most one
    global reference, the stored one. It gives it up when a context can
    be obtained; when none can, the two statics are cleared all the same
    and the reference is not released. *)
Theorem freeHotplug_unregisters_then_releases w :
  let run := MacCoreaudio_freeHotplug jvm w in
  fst run = Some tt ->
  exists l,
    trace (snd run) = trace w ++ l
    /\ count is_unregistration l = 1%nat
    /\ released_after_unregistration false l = true
    /\ (count is_DeleteGlobalRef l <= 1)%nat
    /\ (count is_DeleteGlobalRef l = 1%nat ->
        In (EvDeleteGlobalRef (MacCoreaudio_devicesChangedCallbackClass w)) l)
    /\ ((if thread_attached w then supports_JNI_1_6 jvm = true
         else forall h, attach jvm h = 0) ->
        count is_DeleteGlobalRef l = 1%nat)
    /\ ((if thread_attached w then supports_JNI_1_6 jvm = false
         else forall h, attach jvm h <> 0) ->
        count is_DeleteGlobalRef l = 0%nat
        /\ MacCoreaudio_devicesChangedCallbackClass (snd run) = NULL
        /\ MacCoreaudio_devicesChangedCallbackMethodID (snd run) = NULL).
Proof.
  cbv zeta.
  apply (wp_run (MacCoreaudio_freeHotplug jvm)
           (fun r w' => r = Some tt -> exists l,
              trace w' = trace w ++ l
              /\ count is_unregistration l = 1%nat
              /\ released_after_unregistration false l = true
              /\ (count is_DeleteGlobalRef l <= 1)%nat
              /\ (count is_DeleteGlobalRef l = 1%nat ->
                  In (EvDeleteGlobalRef
                        (MacCoreaudio_devicesChangedCallbackClass w)) l)
              /\ ((if thread_attached w then supports_JNI_1_6 jvm = true
                   else forall h, attach jvm h = 0) ->
                  count is_DeleteGlobalRef l = 1%nat)
              /\ ((if thread_attached w then supports_JNI_1_6 jvm = false
                   else forall h, attach jvm h <> 0) ->
                  count is_DeleteGlobalRef l = 0%nat
                  /\ MacCoreaudio_devicesChangedCallbackClass w' = NULL
                  /\ MacCoreaudio_devicesChangedCallbackMethodID w' = NULL))).
  pose proof (MacCoreaudio_freeHotplug_release w) as H.
  pose proof (MacCoreaudio_freeHotplug_outcome w) as F.
  unfold wp in *.
  destruct (MacCoreaudio_freeHotplug jvm w) as [r w']. cbn [fst snd] in *.
  intros Hr.
  destruct (H Hr) as [l (T & _ & U & _ & _ & O & Le & Hin & Hyes & Hno)].
  destruct F as [l' (_ & _ & _ & F)]. subst r.
  exists l. repeat (split; [assumption|]).
  split; [auto|]. intros Hctx. split; [auto | exact F].
Qed.

(** *** The attachment of the thread, across a call *)

Lemma always_restores_ret {A} (a : A) : always_restores (ret a).
Proof.
  intros w. exists []. split; [now rewrite app_nil_r|].
  intros _. split; reflexivity.
Qed.

Lemma always_restores_bind {A B} (m : M A) (k : A -> M B) :
  always_restores m -> (forall a, always_restores (k a)) ->
  always_restores (bind m k).
Proof.
  intros Hm Hk w. apply wp_bind.
  eapply wp_weaken; [apply Hm|]. intros [a|] w1 [l1 [T1 R1]].
  - eapply wp_weaken; [apply Hk|]. intros r w2 [l2 [T2 R2]].
    exists (l1 ++ l2). split; [now rewrite T2, T1, app_assoc|].
    eapply attachment_restored_trans; eassumption.
  - exists l1. split; [assumption|]. intros H. now contradiction H.
Qed.

Lemma always_restores_set_VM vm : always_restores (set_VM vm).
Proof.
  intros [vm0 cls mid att tr]. unfold wp, set_VM; cbn [fst snd].
  exists []. split; [cbn; now rewrite app_nil_r|].
  intros _. split; reflexivity.
Qed.

Lemma always_restores_log e : always_restores (MacCoreaudio_log jvm e).
Proof.
  intros w. eapply wp_weaken; [apply MacCoreaudio_log_restores|].
  intros r w' [l (T & R & _)]. exists l. now split.
Qed.

Lemma always_restores_callbackMethod buffer bufferLength callback
    callbackMethod :
  always_restores
    (MacCoreaudio_callbackMethod jvm buffer bufferLength callback
       callbackMethod).
Proof.
  intros [vm cls mid att tr]. unfold MacCoreaudio_callbackMethod.
  steps; normalize_trace; eexists; (split; [solve_trace | solve_restored]).
Qed.

Lemma always_restores_devicesChanged :
  always_restores (MacCoreaudio_devicesChangedCallbackMethod jvm).
Proof.
  unfold MacCoreaudio_devicesChangedCallbackMethod, log_literal.
  apply always_restores_bind; [apply always_restores_log|]. intros [] w.
  eapply wp_weaken; [apply devicesChanged_body_outcome|].
  intros r w' [l (T & R & _)]. exists l. now split.
Qed.

Lemma always_restores_initHotplug :
  always_restores (MacCoreaudio_initHotplug jvm).
Proof.
  unfold MacCoreaudio_initHotplug, log_literal.
  apply always_restores_bind; [apply always_restores_log|].
  intros [] [vm cls mid att tr].
  steps; normalize_trace; eexists; (split; [solve_trace | solve_restored]).
Qed.

Lemma always_restores_freeHotplug :
  always_restores (MacCoreaudio_freeHotplug jvm).
Proof.
  unfold MacCoreaudio_freeHotplug, log_literal.
  apply always_restores_bind; [apply always_restores_log|]. intros [] w.
  eapply wp_weaken; [apply freeHotplug_body_outcome|].
  intros r w' [l (T & R & _)]. exists l. now split.
Qed.

Ltac restores_seq :=
  repeat (cbv beta;
          lazymatch goal with
          | |- always_restores (bind _ _) =>
              apply always_restores_bind; [|intros ?]
          end).

Lemma cross_restores c : always_restores (cross jvm c).
Proof.
  destruct c; cbn [cross]; unfold forget, JNI_OnLoad, JNI_OnUnload, log_literal.
  - restores_seq;
      auto using always_restores_set_VM, always_restores_log,
        always_restores_initHotplug, always_restores_ret.
  - restores_seq;
      auto using always_restores_set_VM, always_restores_log,
        always_restores_freeHotplug.
  - apply always_restores_initHotplug.
  - apply always_restores_freeHotplug.
  - apply always_restores_devicesChanged.
  - restores_seq;
      auto using always_restores_callbackMethod, always_restores_ret.
  - apply always_restores_log.
Qed.

(** X16.  Whatever entry point is called, in whatever state and on
    whatever thread: when the call returns, the thread is attached to
    the JVM exactly if it was on entry, and the call has detached it as
    many times as it has attached it successfully. No entry point leaves
    a thread attached that it found detached. *)
Theorem returning_call_restores_attachment c w :
  fst (cross jvm c w) = Some tt ->
  thread_attached (snd (cross jvm c w)) = thread_attached w
  /\ exists l,
       trace (snd (cross jvm c w)) = trace w ++ l
       /\ count is_Attach_ok l = count is_Detach l.
Proof.
  intros Hr. pose proof (cross_restores c w) as H. unfold wp in H.
  destruct H as [l [T R]]. destruct R as [A C]; [congruence|].
  split; [assumption|]. exists l. now split.
Qed.

(** *** Registration with the hotplug subsystem *)

Lemma registration_pending_app l1 : forall b l2,
  registration_pending b (l1 ++ l2)
  = registration_pending (registration_pending b l1) l2.
Proof.
  induction l1 as [|e l1 IH]; intros b l2; [reflexivity|].
  destruct e; cbn; apply IH.
Qed.

Lemma never_doubled_app l1 : forall b l2,
  never_doubled b (l1 ++ l2)
  = never_doubled b l1 && never_doubled (registration_pending b l1) l2.
Proof.
  induction l1 as [|e l1 IH]; intros b l2; [reflexivity|].
  destruct e; cbn; rewrite ?IH; try reflexivity.
  now rewrite andb_assoc.
Qed.

Lemma no_registration l : forall b,
  count is_registration l = 0%nat ->
  never_doubled b l = true
  /\ (registration_pending b l = true -> b = true).
Proof.
  induction l as [|e l IH]; intros b H; [now split|].
  rewrite count_cons in H.
  destruct e; cbn in H |- *; try discriminate; try now apply IH.
  destruct (IH false H) as [N P]. split; [assumption|].
  intros K. now apply P in K.
Qed.

Lemma unregistration_clears l : forall b,
  count is_registration l = 0%nat ->
  count is_unregistration l = 1%nat ->
  registration_pending b l = false.
Proof.
  induction l as [|e l IH]; intros b R U; [discriminate|].
  rewrite count_cons in R, U.
  destruct e; cbn in R, U |- *; try discriminate; try now apply IH.
  destruct (no_registration l false R) as [_ P].
  destruct (registration_pending false l); [symmetry; now apply P | reflexivity].
Qed.

Lemma single_registration l :
  (count is_registration l <= 1)%nat -> never_doubled false l = true.
Proof.
  induction l as [|e l IH]; intros H; [reflexivity|].
  rewrite count_cons in H.
  destruct e; cbn in H |- *; try now apply IH.
  apply no_registration. lia.
Qed.

Lemma tracked_after_quiet w w' l :
  quiet w w' l -> registration_tracked w -> registration_tracked w'.
Proof.
  intros ([T _ _] & _ & [C M] & (R & _)) (N & P & K).
  unfold registration_tracked, hotplug_resolved, hotplug_consistent in *.
  rewrite T, never_doubled_app, registration_pending_app, N, C, M.
  destruct (no_registration l (registration_pending false (trace w)) R)
    as [N' P'].
  rewrite N'. auto.
Qed.

Lemma tracked_after_init w w' l :
  init_outcome w w' l -> registration_tracked w -> registration_tracked w'.
Proof.
  intros ([T _ _] & _ & Hres & Hun & Hcons) (N & P & K).
  unfold registration_tracked.
  rewrite T, never_doubled_app, registration_pending_app, N. cbn [andb].
  split; [|split; [|auto]].
  - destruct (registration_pending false (trace w)) eqn:E.
    + destruct (Hres (P eq_refl)) as [_ (R & _)].
      now apply no_registration.
    + destruct (Z.eq_dec (MacCoreaudio_devicesChangedCallbackClass w) NULL)
        as [Hc|Hc].
      * destruct (Hun Hc (proj1 K Hc)) as [[_ R] | (_ & R & _)];
          apply single_registration; lia.
      * assert (Hr : hotplug_resolved w).
        { split; [assumption|]. intros Hm. apply Hc, K, Hm. }
        destruct (Hres Hr) as [_ (R & _)]. now apply no_registration.
  - destruct (registration_pending false (trace w)) eqn:E.
    + destruct (Hres (P eq_refl)) as [[C M] (R & _)]. intros _.
      unfold hotplug_resolved. rewrite C, M. now apply P.
    + destruct (Z.eq_dec (MacCoreaudio_devicesChangedCallbackClass w) NULL)
        as [Hc|Hc].
      * destruct (Hun Hc (proj1 K Hc)) as [[_ R] | (Hr & _)]; [|auto].
        intros H. now apply (no_registration l false R) in H.
      * assert (Hr : hotplug_resolved w).
        { split; [assumption|]. intros Hm. apply Hc, K, Hm. }
        destruct (Hres Hr) as [_ (R & _)].
        intros H. now apply (no_registration l false R) in H.
Qed.

Lemma tracked_after_free r w w' l :
  free_outcome r w w' l ->
  (r = Some tt -> count is_unregistration l = 1%nat) ->
  registration_tracked w -> registration_tracked w'.
Proof.
  intros ([T _ _] & _ & R & F) U (N & P & K).
  unfold registration_tracked, hotplug_resolved, hotplug_consistent in *.
  rewrite T, never_doubled_app, registration_pending_app, N. cbn [andb].
  destruct (no_registration l (registration_pending false (trace w)) R)
    as [N' P'].
  split; [assumption|]. destruct r as [[]|].
  - destruct F as [-> ->]. rewrite (unregistration_clears l _ R (U eq_refl)).
    split; [discriminate | tauto].
  - destruct F as [-> ->]. auto.
Qed.

Lemma always_tracks_ret {A} (a : A) : always_tracks (ret a).
Proof. intros w. exact (fun H => H). Qed.

Lemma always_tracks_bind {A B} (m : M A) (k : A -> M B) :
  always_tracks m -> (forall a, always_tracks (k a)) ->
  always_tracks (bind m k).
Proof.
  intros Hm Hk w. apply wp_bind.
  eapply wp_weaken; [apply Hm|]. intros [a|] w1 H1; [|assumption].
  eapply wp_weaken; [apply Hk|]. intros r w2 H2. auto.
Qed.

Lemma always_tracks_set_VM vm : always_tracks (set_VM vm).
Proof. intros [vm0 cls mid att tr]. exact (fun H => H). Qed.

Lemma always_tracks_quiet {A} (m : M A) :
  (forall w, wp m (fun _ w' => exists l, quiet w w' l) w) -> always_tracks m.
Proof.
  intros H w. eapply wp_weaken; [apply H|].
  intros r w' [l Q]. now apply tracked_after_quiet with l.
Qed.

Lemma always_tracks_initHotplug : always_tracks (MacCoreaudio_initHotplug jvm).
Proof.
  intros w. eapply wp_weaken; [apply MacCoreaudio_initHotplug_outcome|].
  intros r w' [l Q]. now apply tracked_after_init with l.
Qed.

Lemma always_tracks_freeHotplug : always_tracks (MacCoreaudio_freeHotplug jvm).
Proof.
  intros w.
  pose proof (MacCoreaudio_freeHotplug_release w) as H.
  pose proof (MacCoreaudio_freeHotplug_outcome w) as F.
  unfold wp in *.
  destruct (MacCoreaudio_freeHotplug jvm w) as [r w']. cbn [fst snd] in *.
  destruct F as [l F]. apply (tracked_after_free r w w' l F).
  intros Hr. destruct (H Hr) as [l' (T' & _ & U & _)].
  destruct F as ([T _ _] & _). rewrite T in T'.
  apply app_inv_head in T'. now subst l'.
Qed.

Ltac tracks_seq :=
  repeat (cbv beta;
          lazymatch goal with
          | |- always_tracks (bind _ _) =>
              apply always_tracks_bind; [|intros ?]
          end).

Lemma cross_tracks c : always_tracks (cross jvm c).
Proof.
  pose proof (fun e => always_tracks_quiet _ (MacCoreaudio_log_quiet e))
    as Hlog.
  destruct c; cbn [cross]; unfold forget, JNI_OnLoad, JNI_OnUnload, log_literal.
  - tracks_seq;
      auto using always_tracks_set_VM, always_tracks_initHotplug,
        always_tracks_ret.
  - tracks_seq;
      auto using always_tracks_set_VM, always_tracks_freeHotplug.
  - apply always_tracks_initHotplug.
  - apply always_tracks_freeHotplug.
  - apply always_tracks_quiet,
      MacCoreaudio_devicesChangedCallbackMethod_quiet.
  - tracks_seq; [|apply always_tracks_ret].
    apply always_tracks_quiet, MacCoreaudio_callbackMethod_quiet.
  - apply Hlog.
Qed.

Lemma run_tracks steps : forall w,
  registration_tracked w -> registration_tracked (run jvm steps w).
Proof.
  induction steps as [|s steps IH]; intros w Hw; cbn [run]; [assumption|].
  assert (H : registration_tracked (snd (perform jvm s w))).
  { destruct s as [c|a]; cbn [perform].
    - exact (cross_tracks c w Hw).
    - destruct w; exact Hw. }
  destruct (perform jvm s w) as [[u|] w']; cbn [snd] in H; auto.
Qed.

(** X17.  In every run of entry points from the state before the module
    is loaded, on threads attached or not and whatever the JVM answers,
    the module never registers with the native hotplug subsystem while a
    registration is in force; and whenever a registration is in force,
    the target that a device-change event notifies is resolved. Every
    run keeps both properties from any state that has them. *)
Theorem registration_never_doubled steps :
  (forall attached,
     let w := run jvm steps (unloaded attached) in
     never_doubled false (trace w) = true
     /\ (registration_pending false (trace w) = true -> hotplug_resolved w))
  /\ (forall w,
        registration_tracked w -> registration_tracked (run jvm steps w)).
Proof.
  split; [|apply run_tracks].
  intros attached w.
  assert (H : registration_tracked w).
  { apply run_tracks. unfold registration_tracked, unloaded, hotplug_consistent.
    cbn. split; [reflexivity|]. split; [discriminate | tauto]. }
  destruct H as (N & P & _). now split.
Qed.

(** *** The message of [MacCoreaudio_log] *)

(** One step of symbolic execution that keeps the content of an array
    filled from a whole buffer. *)
Ltac fill_step :=
  lazymatch goal with
  | |- wp (bind (SetByteArrayRegion
                   (if (0 <=? Z.of_nat (List.length ?b)) && ?n
                    then _ else _) _ _ _) _) _ _ =>
      replace (0 <=? Z.of_nat (List.length b)) with true
        by (symmetry; apply Z.leb_le; lia);
      cbn [andb]; destruct n eqn:?;
      [ apply wp_bind; unfold wp at 1;
        rewrite Nat2Z.id, SetByteArrayRegion_whole; world
      | apply wp_bind; unfold wp at 1; unfold SetByteArrayRegion; world ]
  | _ => step
  end.

Lemma MacCoreaudio_log_message e w :
  wp (MacCoreaudio_log jvm e)
     (fun r w' => exists l,
        trace w' = trace w ++ l
        /\ (count is_managed_call l <= 1)%nat
        /\ (forall c m a,
              In (EvCallStaticVoidMethod c m a) l ->
              a = Some (vsnprintf 2048 e)
              /\ c <> NULL
              /\ In (EvFindClass
                       "org/jitsi/impl/neomedia/device/CoreAudioDevice" c) l
              /\ In (EvGetStaticMethodID c "log" "([B)V" m) l)
        /\ (r = Some tt ->
            forall c, c <> NULL ->
              In (EvFindClass
                    "org/jitsi/impl/neomedia/device/CoreAudioDevice" c) l ->
              count is_log_call l = 1%nat)) w.
Proof.
  destruct w as [vm cls mid att tr].
  unfold MacCoreaudio_log. generalize (vsnprintf 2048 e). intros error.
  repeat fill_step; normalize_trace; eexists; (split; [solve_trace|]).
  all: eqb_facts; counts; (split; [lia|]).
  all: split;
    [ intros c m a Hin; cbn [In] in Hin;
      repeat (destruct Hin as [Hin|Hin]; [try discriminate Hin|]);
      try contradiction; inversion Hin; subst;
      (split; [reflexivity|]); (split; [assumption|]); cbn; tauto
    | intros Hr c Hc Hin; try discriminate Hr; try reflexivity;
      cbn [In] in Hin;
      repeat (destruct Hin as [Hin|Hin]; [try discriminate Hin|]);
      try contradiction; inversion Hin; subst; congruence ].
Qed.

Lemma c_str_prefix l : exists rest, l = c_str l ++ rest.
Proof.
  induction l as [|b l [rest IH]]; [now exists []|].
  cbn [c_str]. destruct (Byte.eqb b x00).
  - now exists (b :: l).
  - exists rest. cbn [app]. now rewrite <- IH.
Qed.

Lemma c_str_no_NUL l : Forall (fun b => b <> x00) (c_str l).
Proof.
  induction l as [|b l IH]; [constructor|].
  cbn [c_str]. destruct (Byte.eqb b x00) eqn:E; [constructor|].
  constructor; [|assumption].
  intros ->. discriminate E.
Qed.

Lemma vsnprintf_bounded size e :
  (List.length (vsnprintf size e) <= size - 1)%nat
  /\ (exists rest, e = vsnprintf size e ++ rest)
  /\ Forall (fun b => b <> x00) (vsnprintf size e).
Proof.
  unfold vsnprintf. split; [apply firstn_le_length|]. split.
  - destruct (c_str_prefix e) as [rest H].
    exists (skipn (size - 1) (c_str e) ++ rest).
    now rewrite app_assoc, firstn_skipn.
  - pose proof (c_str_no_NUL e) as H. rewrite Forall_forall in *.
    intros b Hb. apply H. rewrite <- (firstn_skipn (size - 1) (c_str e)).
    apply in_or_app. now left.
Qed.

(** X13.  [MacCoreaudio_log] calls Java at most once, and what it hands
    to the static method [log] of the class it has just found is the
    expansion of the message cut at 2047 bytes: a prefix of the
    expansion that holds no NUL. When the class is found and the call
    returns, the message has been forwarded exactly once. *)
Theorem MacCoreaudio_log_forwards_message e w :
  let run := MacCoreaudio_log jvm e w in
  (exists l,
     trace (snd run) = trace w ++ l
     /\ (count is_managed_call l <= 1)%nat
     /\ (forall c m a,
           In (EvCallStaticVoidMethod c m a) l ->
           a = Some (vsnprintf 2048 e)
           /\ c <> NULL
           /\ In (EvFindClass
                    "org/jitsi/impl/neomedia/device/CoreAudioDevice" c) l
           /\ In (EvGetStaticMethodID c "log" "([B)V" m) l)
     /\ (fst run = Some tt ->
         forall c, c <> NULL ->
           In (EvFindClass
                 "org/jitsi/impl/neomedia/device/CoreAudioDevice" c) l ->
           count is_log_call l = 1%nat))
  /\ (List.length (vsnprintf 2048 e) <= 2047)%nat
  /\ (exists rest, e = vsnprintf 2048 e ++ rest)
  /\ Forall (fun b => b <> x00) (vsnprintf 2048 e).
Proof.
  cbv zeta. split; [exact (MacCoreaudio_log_message e w)|].
  destruct (vsnprintf_bounded 2048 e) as (L & P & N).
  split; [|split; assumption].
  etransitivity; [exact L|]. apply Nat.eq_le_incl. reflexivity.
Qed.

(** *** Calls that return *)

Ltac refute :=
  exfalso; eqb_facts;
  match goal with
  | H : ?x <> ?x |- _ => now apply H
  | H : ?x <> ?y, K : ?x = ?y |- _ => now apply H
  | H : ?a = true, K : ?a = false |- _ => congruence
  | Ha : forall h, attach jvm h = 0, H : attach jvm _ <> 0 |- _ =>
      now apply H
  | Hm : forall h c n s, get_static_method_id jvm h c n s <> NULL,
    H : get_static_method_id jvm _ _ _ _ = NULL |- _ => now apply Hm in H
  | Hn : forall h n, new_byte_array jvm h n = true,
    H : new_byte_array jvm _ _ = false |- _ => rewrite Hn in H; discriminate H
  end.

Lemma returns_bind {A B} (m : M A) (k : A -> M B) :
  returns m -> (forall a, returns (k a)) -> returns (bind m k).
Proof.
  intros Hm Hk w Hw. apply wp_bind.
  eapply wp_weaken; [now apply Hm|]. intros [a|] w1 [R1 V1]; [|now split].
  eapply wp_weaken; [apply Hk; congruence|]. intros r w2 [R2 V2].
  split; [assumption | congruence].
Qed.

Lemma returns_log e : cooperative jvm -> returns (MacCoreaudio_log jvm e).
Proof.
  intros (Hs & Ha & Hm & Hn & Hg) [vm cls mid att tr] Hvm. world.
  unfold MacCoreaudio_log. generalize (vsnprintf 2048 e). intros error.
  repeat fill_step; try (split; [discriminate | reflexivity]); refute.
Qed.

Lemma returns_initHotplug :
  cooperative jvm -> returns (MacCoreaudio_initHotplug jvm).
Proof.
  intros Hco. unfold MacCoreaudio_initHotplug, log_literal.
  apply returns_bind; [now apply returns_log|].
  destruct Hco as (Hs & Ha & Hm & Hn & Hg).
  intros [] [vm cls mid att tr] Hvm. world.
  steps; try (split; [discriminate | reflexivity]); refute.
Qed.

Lemma returns_freeHotplug :
  cooperative jvm -> returns (MacCoreaudio_freeHotplug jvm).
Proof.
  intros Hco. unfold MacCoreaudio_freeHotplug, log_literal.
  apply returns_bind; [now apply returns_log|].
  destruct Hco as (Hs & Ha & Hm & Hn & Hg).
  intros [] [vm cls mid att tr] Hvm. world.
  steps; try (split; [discriminate | reflexivity]); refute.
Qed.

Lemma returns_devicesChanged :
  cooperative jvm -> returns (MacCoreaudio_devicesChangedCallbackMethod jvm).
Proof.
  intros Hco. unfold MacCoreaudio_devicesChangedCallbackMethod, log_literal.
  apply returns_bind; [now apply returns_log|].
  destruct Hco as (Hs & Ha & Hm & Hn & Hg).
  intros [] [vm cls mid att tr] Hvm. world.
  steps; try (split; [discriminate | reflexivity]); refute.
Qed.

(** *** The relay, on a part of the buffer *)

Lemma SetByteArrayRegion_prefix B L w :
  0 <= L <= Z.of_nat (List.length B) ->
  SetByteArrayRegion (Some (repeat x00 (Z.to_nat L))) 0 L B w
  = (Some (firstn (Z.to_nat L) B), w).
Proof.
  intros HL. unfold SetByteArrayRegion. rewrite repeat_length.
  replace (0 <? 0) with false by reflexivity.
  replace (L <? 0) with false by (symmetry; apply Z.ltb_ge; lia).
  replace (Z.of_nat (Z.to_nat L) <? 0 + L) with false
    by (symmetry; apply Z.ltb_ge; lia).
  replace (Z.of_nat (List.length B) <? L) with false
    by (symmetry; apply Z.ltb_ge; lia).
  cbn [orb]. unfold ret. f_equal. f_equal.
  rewrite Z.add_0_l. cbn [Z.to_nat firstn app].
  rewrite skipn_all2 by (rewrite repeat_length; lia).
  apply app_nil_r.
Qed.

Lemma memcpy_prefix dst src L w :
  0 <= L <= Z.of_nat (List.length dst) ->
  List.length src = Z.to_nat L ->
  memcpy dst src L w = (Some (src ++ skipn (Z.to_nat L) dst), w).
Proof.
  intros HL Hs. unfold memcpy. rewrite Hs.
  replace (L <? 0) with false by (symmetry; apply Z.ltb_ge; lia).
  replace (Z.of_nat (List.length dst) <? L) with false
    by (symmetry; apply Z.ltb_ge; lia).
  replace (Z.of_nat (Z.to_nat L) <? L) with false
    by (symmetry; apply Z.ltb_ge; lia).
  cbn [orb]. unfold ret. f_equal. f_equal. f_equal.
  rewrite <- Hs. apply firstn_all.
Qed.

Lemma callbackMethod_prefix_run B L callback callbackMethod w :
  MacCoreaudio_VM w <> NULL ->
  context_available jvm w = true ->
  (forall h, new_byte_array jvm h L = true) ->
  (forall h, get_byte_array_elements jvm h = true) ->
  admissible jvm (Relay B L callback callbackMethod) ->
  exists h l w',
    MacCoreaudio_callbackMethod jvm B L callback callbackMethod w
    = (Some (java_callback jvm h callback callbackMethod
               (firstn (Z.to_nat L) B) L
             ++ skipn (Z.to_nat L) B), w')
    /\ trace w' = trace w ++ l
    /\ count is_managed_call l = 1%nat
    /\ In (EvCallVoidMethod callback callbackMethod
             (firstn (Z.to_nat L) B) L) l.
Proof.
  intros Hvm Hctx Hnew Hget (HL & Hcb & Hm & Hlen).
  destruct (ATTACH_available w Hvm Hctx) as [l0 [HA C0]].
  unfold MacCoreaudio_callbackMethod, bind. rewrite HA. cbn [negb].
  unfold NewByteArray. rewrite Hnew.
  replace (0 <=? L) with true by (symmetry; apply Z.leb_le; lia).
  cbn [andb]. rewrite SetByteArrayRegion_prefix by assumption.
  unfold CallVoidMethod.
  apply Z.eqb_neq in Hcb, Hm. rewrite Hcb, Hm. cbn [orb].
  unfold GetByteArrayElements. rewrite Hget.
  rewrite memcpy_prefix by (assumption || apply Hlen).
  apply Z.eqb_neq in Hvm.
  destruct w as [vm cls mid att tr]. world.
  unfold DETACH, DetachCurrentThread, ret. world.
  destruct att; cbn [negb]; world; rewrite ?Hvm; world;
    normalize_trace; eexists _, _, _; (split; [reflexivity|]);
    cbn [trace]; (split; [reflexivity|]); rewrite !count_app, C0;
    (split; [reflexivity|]); apply in_or_app; right; cbn; tauto.
Qed.

(** X12.  The relay touches the first [bufferLength] bytes of the native
    buffer only. With a length within the buffer, a valid callback
    target, a context available and a JVM that can allocate the array,
    the relay returns; the Java method has been called exactly once, on
    a copy of the first [bufferLength] bytes; these bytes are replaced
    by what the method left in the array, and the bytes beyond are as
    they were. *)
Theorem callbackMethod_touches_prefix_only B L callback callbackMethod w :
  MacCoreaudio_VM w <> NULL ->
  context_available jvm w = true ->
  (forall h, new_byte_array jvm h L = true) ->
  (forall h, get_byte_array_elements jvm h = true) ->
  admissible jvm (Relay B L callback callbackMethod) ->
  let run := MacCoreaudio_callbackMethod jvm B L callback callbackMethod w in
  exists h B',
    fst run = Some B'
    /\ B' = java_callback jvm h callback callbackMethod
              (firstn (Z.to_nat L) B) L
            ++ skipn (Z.to_nat L) B
    /\ firstn (Z.to_nat L) B'
       = java_callback jvm h callback callbackMethod
           (firstn (Z.to_nat L) B) L
    /\ skipn (Z.to_nat L) B' = skipn (Z.to_nat L) B
    /\ List.length B' = List.length B
    /\ exists l,
         trace (snd run) = trace w ++ l
         /\ count is_managed_call l = 1%nat
         /\ In (EvCallVoidMethod callback callbackMethod
                  (firstn (Z.to_nat L) B) L) l.
Proof.
  intros Hvm Hctx Hnew Hget Hadm run.
  destruct (callbackMethod_prefix_run B L callback callbackMethod w
              Hvm Hctx Hnew Hget Hadm) as (h & l & w' & E & T & C & I).
  destruct Hadm as (HL & _ & _ & Hlen).
  subst run. rewrite E. cbn [fst snd].
  set (J := java_callback jvm h callback callbackMethod
              (firstn (Z.to_nat L) B) L).
  assert (HJ : List.length J = Z.to_nat L) by apply Hlen.
  assert (Hn : (Z.to_nat L <= List.length B)%nat) by lia.
  exists h, (J ++ skipn (Z.to_nat L) B). fold J.
  split; [reflexivity|]. split; [reflexivity|]. clearbody J.
  revert HJ Hn I. generalize (Z.to_nat L). intros n HJ Hn I. subst n.
  split; [rewrite firstn_app, firstn_all, Nat.sub_diag; cbn;
          apply app_nil_r|].
  split; [rewrite skipn_app, skipn_all, Nat.sub_diag; reflexivity|].
  split; [rewrite length_app, length_skipn; lia|].
  exists l. auto.
Qed.

Lemma returns_ret {A} (a : A) : returns (ret a).
Proof. intros w _. split; [discriminate | reflexivity]. Qed.

Lemma cooperative_context w :
  cooperative jvm -> context_available jvm w = true.
Proof.
  intros (Hs & Ha & _). unfold context_available.
  destruct (thread_attached w); [assumption | now rewrite Ha].
Qed.

Lemma returns_callbackMethod B L callback callbackMethod :
  cooperative jvm ->
  admissible jvm (Relay B L callback callbackMethod) ->
  returns (MacCoreaudio_callbackMethod jvm B L callback callbackMethod).
Proof.
  intros Hco Hadm w Hvm.
  pose proof (MacCoreaudio_callbackMethod_quiet B L callback
                callbackMethod w) as Q.
  destruct Hco as (Hs & Ha & Hm & Hn & Hg).
  destruct (callbackMethod_prefix_run B L callback callbackMethod w Hvm
              (cooperative_context w (conj Hs (conj Ha (conj Hm (conj Hn Hg)))))
              (fun h => Hn h L) Hg Hadm) as (h & l & w' & E & _).
  unfold wp in *. rewrite E in *. cbn [fst snd] in *.
  destruct Q as [l' (_ & V & _)]. split; [discriminate | assumption].
Qed.

Lemma returns_JNI_OnLoad vm w :
  cooperative jvm ->
  wp (JNI_OnLoad jvm (Z.pos vm))
     (fun r w' => r = Some JNI_VERSION_1_6 /\ MacCoreaudio_VM w' = Z.pos vm) w.
Proof.
  intros Hco. unfold JNI_OnLoad, log_literal.
  apply wp_bind. unfold wp at 1, set_VM. cbn [fst snd].
  set (w0 := Build_World _ _ _ _ _).
  assert (H0 : MacCoreaudio_VM w0 <> NULL) by discriminate.
  assert (E0 : MacCoreaudio_VM w0 = Z.pos vm) by reflexivity.
  clearbody w0.
  apply wp_bind. eapply wp_weaken; [apply (returns_log _ Hco w0 H0)|].
  intros [[]|] w1 [R1 V1]; [|now contradiction R1].
  apply wp_bind.
  eapply wp_weaken; [apply (returns_initHotplug Hco w1); congruence|].
  intros [[]|] w2 [R2 V2]; [|now contradiction R2].
  apply wp_ret. split; [reflexivity | congruence].
Qed.

Lemma returns_JNI_OnUnload w :
  cooperative jvm -> MacCoreaudio_VM w <> NULL ->
  wp (JNI_OnUnload jvm)
     (fun r w' => r = Some tt /\ MacCoreaudio_VM w' = NULL) w.
Proof.
  intros Hco Hvm. unfold JNI_OnUnload, log_literal.
  apply wp_bind. eapply wp_weaken; [apply (returns_log _ Hco w Hvm)|].
  intros [[]|] w1 [R1 V1]; [|now contradiction R1].
  apply wp_bind.
  eapply wp_weaken; [apply (returns_freeHotplug Hco w1); congruence|].
  intros [[]|] w2 [R2 V2]; [|now contradiction R2].
  destruct w2. split; reflexivity.
Qed.

(** X19.  No call goes wrong in a cooperative JVM. When threads can be
    attached, the static methods of a class that was found are found and
    byte arrays can be allocated, every entry point of a loaded module
    returns, provided a relay is handed a length within its buffer and a
    valid callback target; [JNI_OnLoad] returns [JNI_VERSION_1_6] from
    any state and leaves the JavaVM it was given in [MacCoreaudio_VM],
    and [JNI_OnUnload] leaves [MacCoreaudio_VM] null. *)
Theorem cooperative_calls_return :
  cooperative jvm ->
  (forall vm w,
     fst (JNI_OnLoad jvm (Z.pos vm) w) = Some JNI_VERSION_1_6
     /\ MacCoreaudio_VM (snd (JNI_OnLoad jvm (Z.pos vm) w)) = Z.pos vm)
  /\ (forall w,
        MacCoreaudio_VM w <> NULL ->
        fst (JNI_OnUnload jvm w) = Some tt
        /\ MacCoreaudio_VM (snd (JNI_OnUnload jvm w)) = NULL)
  /\ (forall c w,
        MacCoreaudio_VM w <> NULL -> admissible jvm c ->
        fst (cross jvm c w) = Some tt).
Proof.
  intros Hco. split; [|split].
  - intros vm w. exact (returns_JNI_OnLoad vm w Hco).
  - intros w Hvm. exact (returns_JNI_OnUnload w Hco Hvm).
  - intros c w Hvm Hadm.
    assert (G : forall m : M unit,
              wp m (fun r _ => r <> None) w -> fst (m w) = Some tt).
    { intros m H. unfold wp in H. destruct (fst (m w)) as [[]|]; congruence. }
    destruct c; cbn [cross]; unfold forget.
    + apply G. apply wp_bind.
      eapply wp_weaken; [apply (returns_JNI_OnLoad vm w Hco)|].
      intros [a|] w' [R _]; [discriminate | discriminate R].
    + exact (proj1 (returns_JNI_OnUnload w Hco Hvm)).
    + apply G. eapply wp_weaken; [apply (returns_initHotplug Hco w Hvm)|].
      now intros r w' [R _].
    + apply G. eapply wp_weaken; [apply (returns_freeHotplug Hco w Hvm)|].
      now intros r w' [R _].
    + apply G. eapply wp_weaken; [apply (returns_devicesChanged Hco w Hvm)|].
      now intros r w' [R _].
    + apply G. apply wp_bind.
      eapply wp_weaken;
        [apply (returns_callbackMethod _ _ _ _ Hco Hadm w Hvm)|].
      intros [a|] w' [R _]; [discriminate | now contradiction R].
    + apply G. eapply wp_weaken; [apply (returns_log _ Hco w Hvm)|].
      now intros r w' [R _].
Qed.

(** *** Loading and unloading *)

Lemma count_zero_In {E} (p : E -> bool) l e :
  count p l = 0%nat -> In e l -> p e = false.
Proof.
  intros H Hin. apply count_zero_Forall in H.
  rewrite Forall_forall in H. now apply H.
Qed.

(** The global reference [MacCoreaudio_initHotplug] takes is the one it
    stores, when the entry point of the target is found. *)
Lemma initHotplug_references w :
  (forall h clazz name sig, get_static_method_id jvm h clazz name sig <> NULL) ->
  wp (MacCoreaudio_initHotplug jvm)
     (fun r w' => exists l,
        trace w' = trace w ++ l
        /\ no_hotplug_release l
        /\ (forall obj res,
              In (EvNewGlobalRef obj res) l -> res <> NULL ->
              MacCoreaudio_devicesChangedCallbackClass w' = res)) w.
Proof.
  intros Hm. unfold MacCoreaudio_initHotplug, log_literal.
  apply wp_bind. eapply wp_weaken; [apply MacCoreaudio_log_summary|].
  intros r1 w1 [l1 (([T1 _ _] & _ & [C1 M1] & (_ & _ & G1)) & _ & N1)].
  assert (Hno : forall obj res, ~ In (EvNewGlobalRef obj res) l1).
  { intros obj res Hin.
    pose proof (count_zero_In _ _ _ G1 Hin) as H. discriminate H. }
  destruct r1 as [[]|].
  2: { exists l1. split; [assumption|]. split; [assumption|].
       intros obj res Hin. now apply Hno in Hin. }
  apply (wp_weaken _ (fun r w' => exists l,
            trace w' = trace w1 ++ l
            /\ no_hotplug_release l
            /\ (forall obj res,
                  In (EvNewGlobalRef obj res) l -> res <> NULL ->
                  MacCoreaudio_devicesChangedCallbackClass w' = res))).
  2: { intros r w2 [l2 (T2 & (N2 & U2 & D2) & H2)].
       destruct N1 as (N1 & U1 & D1).
       exists (l1 ++ l2). split; [now rewrite T2, T1, app_assoc|].
       split; [unfold no_hotplug_release; rewrite !count_app; lia|].
       intros obj res Hin. apply in_app_or in Hin as [Hin|Hin]; [|eauto].
       now apply Hno in Hin. }
  clear - Hm. destruct w1 as [vm cls mid att tr].
  steps; normalize_trace; eexists; (split; [solve_trace|]);
    (split; [repeat split; reflexivity|]);
    intros obj res Hin Hres; cbn [In] in Hin;
    repeat (destruct Hin as [Hin|Hin]; [try discriminate Hin|]);
    try contradiction; inversion Hin; subst;
    first [reflexivity | refute].
Qed.

Lemma JNI_OnLoad_outcome vm w :
  cooperative jvm ->
  MacCoreaudio_devicesChangedCallbackClass w = NULL ->
  MacCoreaudio_devicesChangedCallbackMethodID w = NULL ->
  wp (JNI_OnLoad jvm (Z.pos vm))
     (fun r w' => r = Some JNI_VERSION_1_6
                  /\ MacCoreaudio_VM w' = Z.pos vm
                  /\ exists l, load_outcome w w' l) w.
Proof.
  intros Hco Hc Hm. pose proof Hco as (Hs & Ha & Hmeth & Hn & Hg).
  unfold JNI_OnLoad, log_literal.
  apply wp_bind. unfold wp at 1, set_VM. cbn [fst snd].
  set (w0 := Build_World _ _ _ _ _).
  assert (V0 : MacCoreaudio_VM w0 = Z.pos vm) by reflexivity.
  assert (C0 : MacCoreaudio_devicesChangedCallbackClass w0 = NULL)
    by exact Hc.
  assert (M0 : MacCoreaudio_devicesChangedCallbackMethodID w0 = NULL)
    by exact Hm.
  assert (A0 : thread_attached w0 = thread_attached w) by reflexivity.
  assert (T0 : trace w0 = trace w) by reflexivity.
  clearbody w0.
  apply wp_bind.
  eapply wp_weaken;
    [apply wp_and;
       [apply (returns_log _ Hco w0); rewrite V0; discriminate
       | apply MacCoreaudio_log_summary]|].
  intros [[]|] wa [[Ra Va] [la (Qa & Rsa & Na)]]; [|now contradiction Ra].
  destruct Qa as ([Ta _ _] & _ & [Ca Ma] & (Rga & _ & Ga)).
  destruct Rsa as [Aa Da]; [discriminate|].
  apply wp_bind.
  eapply wp_weaken;
    [apply wp_and;
       [apply (returns_initHotplug Hco wa); rewrite Va, V0; discriminate
       | apply wp_and;
           [apply MacCoreaudio_initHotplug_outcome
           | apply wp_and;
               [apply always_restores_initHotplug
               | apply (initHotplug_references wa Hmeth)]]]|].
  intros [[]|] w1 [[Rb Vb] [[lb Ob] [[lb' [Tb Rsb]] [lb'' (Tb' & Nb & Gb)]]]];
    [|now contradiction Rb].
  assert (lb' = lb) as ->.
  { destruct Ob as ([T _ _] & _). rewrite T in Tb.
    now apply app_inv_head in Tb. }
  assert (lb'' = lb) as ->.
  { destruct Ob as ([T _ _] & _). rewrite T in Tb'.
    now apply app_inv_head in Tb'. }
  destruct Rsb as [Ab Db]; [discriminate|].
  destruct Ob as (_ & _ & _ & Hun & _).
  apply wp_ret. split; [reflexivity|]. split; [now rewrite Vb, Va|].
  exists (la ++ lb). unfold load_outcome, no_hotplug_release in *.
  destruct Na as (Na & Ua & Dla), Nb as (Nb & Ub & Dlb).
  rewrite !count_app, Rga, Na, Ua, Dla, Nb, Ub, Dlb.
  split; [now rewrite Tb, Ta, T0, app_assoc|].
  split; [congruence|]. split; [lia|].
  split; [destruct Hun as [[_ R] | (_ & R & _)]; [congruence.. | |]; lia|].
  split; [repeat split; reflexivity|].
  intros obj res Hin. apply in_app_or in Hin as [Hin|Hin]; [|eauto].
  pose proof (count_zero_In _ _ _ Ga Hin) as H. discriminate H.
Qed.

Lemma JNI_OnUnload_outcome w :
  cooperative jvm -> MacCoreaudio_VM w <> NULL ->
  wp (JNI_OnUnload jvm)
     (fun r w' => r = Some tt
                  /\ MacCoreaudio_VM w' = NULL
                  /\ exists l, unload_outcome w w' l) w.
Proof.
  intros Hco Hvm. pose proof Hco as (Hs & Ha & Hmeth & Hn & Hg).
  unfold JNI_OnUnload, log_literal.
  apply wp_bind.
  eapply wp_weaken;
    [apply wp_and;
       [apply (returns_log _ Hco w Hvm) | apply MacCoreaudio_log_summary]|].
  intros [[]|] wa [[Ra Va] [la (Qa & Rsa & Na)]]; [|now contradiction Ra].
  destruct Qa as ([Ta _ _] & _ & [Ca Ma] & (Rga & _ & Ga)).
  destruct Rsa as [Aa Da]; [discriminate|].
  apply wp_bind.
  eapply wp_weaken;
    [apply wp_and;
       [apply (returns_freeHotplug Hco wa); congruence
       | apply wp_and;
           [apply MacCoreaudio_freeHotplug_outcome
           | apply MacCoreaudio_freeHotplug_release]]|].
  intros [[]|] w1 [[Rb Vb] [[lb Ob] Hrel]]; [|now contradiction Rb].
  destruct (Hrel eq_refl)
    as [lb' (Tb & Rsb & Ub & Nb & Gb & _ & _ & Hin & Hyes & _)].
  assert (lb' = lb) as ->.
  { destruct Ob as ([T _ _] & _). rewrite T in Tb.
    now apply app_inv_head in Tb. }
  destruct Rsb as [Ab Db]; [discriminate|].
  destruct Ob as (_ & _ & Rgb & [Cb Mb]).
  assert (Hd : count is_DeleteGlobalRef lb = 1%nat).
  { apply Hyes; [reflexivity|]. destruct (thread_attached wa); assumption. }
  unfold wp, set_VM. cbn [fst snd MacCoreaudio_VM].
  split; [reflexivity|]. split; [reflexivity|].
  exists (la ++ lb). unfold unload_outcome, no_hotplug_release in *.
  cbn [trace thread_attached MacCoreaudio_devicesChangedCallbackClass
       MacCoreaudio_devicesChangedCallbackMethodID].
  destruct Na as (Na & Ua & Dla).
  rewrite !count_app, Rga, Na, Ua, Ga, Rgb, Ub, Nb, Gb.
  split; [now rewrite Tb, Ta, app_assoc|].
  split; [congruence|]. split; [lia|].
  do 4 (split; [reflexivity|]).
  split; [|split; assumption].
  apply in_or_app. right. rewrite <- Ca. auto.
Qed.

(** X20.  Loading the module and unloading it again, in a cooperative
    JVM and from a state whose hotplug target is unresolved: both calls
    return, [JNI_OnLoad] with [JNI_VERSION_1_6]; the three statics are
    null again; the thread is attached exactly if it was; the module
    registered with the hotplug subsystem at most once and unregistered
    once, after any registration, so that none is left in force; every
    global reference it took has been given up; and it notified nobody. *)
Theorem load_unload_round_trip vm w :
  cooperative jvm ->
  MacCoreaudio_devicesChangedCallbackClass w = NULL ->
  MacCoreaudio_devicesChangedCallbackMethodID w = NULL ->
  let load := JNI_OnLoad jvm (Z.pos vm) w in
  let unload := JNI_OnUnload jvm (snd load) in
  fst load = Some JNI_VERSION_1_6
  /\ fst unload = Some tt
  /\ MacCoreaudio_VM (snd unload) = NULL
  /\ MacCoreaudio_devicesChangedCallbackClass (snd unload) = NULL
  /\ MacCoreaudio_devicesChangedCallbackMethodID (snd unload) = NULL
  /\ thread_attached (snd unload) = thread_attached w
  /\ exists l,
       trace (snd unload) = trace w ++ l
       /\ count is_Attach_ok l = count is_Detach l
       /\ (count is_registration l <= 1)%nat
       /\ count is_unregistration l = 1%nat
       /\ registration_pending false l = false
       /\ count is_notification l = 0%nat
       /\ (forall obj res,
             In (EvNewGlobalRef obj res) l -> res <> NULL ->
             In (EvDeleteGlobalRef res) l).
Proof.
  intros Hco Hc Hm load unload.
  pose proof (JNI_OnLoad_outcome vm w Hco Hc Hm) as HL. unfold wp in HL.
  fold load in HL. destruct HL as (RL & VL & l1 & HL).
  assert (Hvm : MacCoreaudio_VM (snd load) <> NULL)
    by (rewrite VL; discriminate).
  pose proof (JNI_OnUnload_outcome (snd load) Hco Hvm) as HU.
  unfold wp in HU. fold unload in HU. destruct HU as (RU & VU & l2 & HU).
  destruct HL as (T1 & A1 & D1 & R1 & (N1 & U1 & Dl1) & G1).
  destruct HU as (T2 & A2 & D2 & R2 & U2 & N2 & G2 & Hin & C2 & M2).
  do 5 (split; [assumption|]). split; [congruence|].
  exists (l1 ++ l2). rewrite !count_app, registration_pending_app.
  rewrite (unregistration_clears l2 _ R2 U2).
  split; [now rewrite T2, T1, app_assoc|].
  split; [lia|]. split; [lia|]. split; [lia|]. split; [reflexivity|].
  split; [lia|].
  intros obj res Hi Hres. apply in_or_app.
  apply in_app_or in Hi as [Hi|Hi].
  - right. now rewrite <- (G1 obj res Hi Hres).
  - pose proof (count_zero_In _ _ _ G2 Hi) as H. discriminate H.
Qed.

(** *** A target without entry point *)

Lemma initHotplug_body_missing_entry_point w :
  (forall h clazz sig,
     get_static_method_id jvm h clazz "devicesChangedCallback" sig = NULL) ->
  wp ('(envAttached, shouldDetach) <- ATTACH jvm ;;
      (if envAttached then
         class <- gets MacCoreaudio_devicesChangedCallbackClass ;;
         methodID <- gets MacCoreaudio_devicesChangedCallbackMethodID ;;
         if (class =? NULL) && (methodID =? NULL) then
           devicesChangedCallbackClass <-
             FindClass jvm "org/jitsi/impl/neomedia/device/CoreAudioDevice" ;;
           if negb (devicesChangedCallbackClass =? NULL) then
             devicesChangedCallbackClass <-
               NewGlobalRef jvm devicesChangedCallbackClass ;;
             if negb (devicesChangedCallbackClass =? NULL) then
               devicesChangedCallbackMethodID <-
                 GetStaticMethodID jvm devicesChangedCallbackClass
                   "devicesChangedCallback" "()V" ;;
               if negb (devicesChangedCallbackMethodID =? NULL) then
                 set_devicesChangedCallbackClass devicesChangedCallbackClass ;;
                 set_devicesChangedCallbackMethodID
                   devicesChangedCallbackMethodID ;;
                 MacCoreaudio_initializeHotplug
               else ret tt
             else ret tt
           else ret tt
         else ret tt
       else ret tt) ;;
      DETACH shouldDetach)
     (fun r w' => exists l,
        trace w' = trace w ++ l
        /\ globals_kept w w'
        /\ count is_registration l = 0%nat
        /\ count is_DeleteGlobalRef l = 0%nat
        /\ (count is_NewGlobalRef l <= 1)%nat
        /\ (r = Some tt ->
            MacCoreaudio_devicesChangedCallbackClass w = NULL ->
            MacCoreaudio_devicesChangedCallbackMethodID w = NULL ->
            (if thread_attached w then supports_JNI_1_6 jvm = true
             else forall h, attach jvm h = 0) ->
            (forall h name, find_class jvm h name <> NULL) ->
            (forall h obj, obj <> NULL -> new_global_ref jvm h obj <> NULL) ->
            count is_NewGlobalRef l = 1%nat)) w.
Proof.
  intros Hmiss. destruct w as [vm cls mid att tr].
  steps; try (rewrite Hmiss in *; discriminate).
  all: normalize_trace; eexists; (split; [solve_trace|]).
  all: (split; [split; reflexivity|]); counts.
  all: do 2 (split; [reflexivity|]); (split; [lia|]).
  all: intros Hr Hc Hm Hctx Hfc Hng; try reflexivity; try discriminate Hr.
  all: exfalso; eqb_facts; world.
  all: first [ congruence
             | now rewrite Hctx in *
             | eapply Hfc; eassumption
             | eapply Hng; [|eassumption]; eapply Hfc; eassumption
             | eapply Hng; [|eassumption]; assumption ].
Qed.

(** X18.  When the class of the hotplug target has no static method
    [devicesChangedCallback], [MacCoreaudio_initHotplug] leaves the two
    statics as they are and does not register with the hotplug
    subsystem; it never deletes a global reference, so the one it has
    taken on the class by then is neither stored nor given up. From the
    unresolved state, with a context and a class at hand, a call that
    returns has taken exactly one such reference. *)
Theorem initHotplug_missing_entry_point w :
  (forall h clazz sig,
     get_static_method_id jvm h clazz "devicesChangedCallback" sig = NULL) ->
  let run := MacCoreaudio_initHotplug jvm w in
  exists l,
    trace (snd run) = trace w ++ l
    /\ globals_kept w (snd run)
    /\ count is_registration l = 0%nat
    /\ count is_DeleteGlobalRef l = 0%nat
    /\ (count is_NewGlobalRef l <= 1)%nat
    /\ (fst run = Some tt ->
        MacCoreaudio_devicesChangedCallbackClass w = NULL ->
        MacCoreaudio_devicesChangedCallbackMethodID w = NULL ->
        (if thread_attached w then supports_JNI_1_6 jvm = true
         else forall h, attach jvm h = 0) ->
        (forall h name, find_class jvm h name <> NULL) ->
        (forall h obj, obj <> NULL -> new_global_ref jvm h obj <> NULL) ->
        count is_NewGlobalRef l = 1%nat).
Proof.
  intros Hmiss. cbv zeta.
  apply (wp_run (MacCoreaudio_initHotplug jvm)
           (fun r w' => exists l,
              trace w' = trace w ++ l
              /\ globals_kept w w'
              /\ count is_registration l = 0%nat
              /\ count is_DeleteGlobalRef l = 0%nat
              /\ (count is_NewGlobalRef l <= 1)%nat
              /\ (r = Some tt ->
                  MacCoreaudio_devicesChangedCallbackClass w = NULL ->
                  MacCoreaudio_devicesChangedCallbackMethodID w = NULL ->
                  (if thread_attached w then supports_JNI_1_6 jvm = true
                   else forall h, attach jvm h = 0) ->
                  (forall h name, find_class jvm h name <> NULL) ->
                  (forall h obj, obj <> NULL ->
                                 new_global_ref jvm h obj <> NULL) ->
                  count is_NewGlobalRef l = 1%nat))).
  unfold MacCoreaudio_initHotplug, log_literal.
  apply wp_bind. eapply wp_weaken; [apply MacCoreaudio_log_summary|].
  intros r1 w1 [l1 (([T1 _ _] & _ & [C1 M1] & (R1 & _ & G1)) & A1 & (_ & _ & D1))].
  destruct r1 as [[]|].
  - eapply wp_weaken; [apply (initHotplug_body_missing_entry_point w1 Hmiss)|].
    intros r w2 [l2 (T2 & [C2 M2] & R2 & D2 & G2 & H2)].
    destruct A1 as [A1 _]; [discriminate|].
    exists (l1 ++ l2). rewrite !count_app, R1, G1, D1, R2, D2. cbn [Nat.add].
    split; [now rewrite T2, T1, app_assoc|].
    split; [split; congruence|].
    do 3 (split; [reflexivity || assumption|]).
    rewrite C1, M1, A1 in H2. exact H2.
  - exists l1. rewrite R1, G1, D1.
    split; [assumption|]. split; [now split|].
    do 2 (split; [reflexivity|]). split; [lia | discriminate].
Qed.

(** *** MacCoreaudio_getStrBytes and MacCoreaudio_getCallbackMethodID *)




End WithJVM.

(** *** JavaLogger *)

(** [JavaLogger::log] never calls Java with a null method identifier, and
    calls nothing at all when the class or the method cannot be found. *)
Lemma JavaLogger_log_resolution_failure env logger level message :
  count JavaLogger.is_null_call (JavaLogger.log env logger level message)
  = 0%nat
  /\ (JavaLogger.GetObjectClass env logger = 0
      \/ JavaLogger.GetMethodID env (JavaLogger.GetObjectClass env logger)
           level "(Ljava/lang/Object;)V" = 0 ->
      count JavaLogger.is_call (JavaLogger.log env logger level message)
      = 0%nat).
Proof.
  unfold JavaLogger.log.
  destruct (JavaLogger.GetObjectClass env logger =? 0) eqn:Ec.
  - split; [reflexivity | intros _; reflexivity].
  - destruct (JavaLogger.GetMethodID env _ level _ =? 0) eqn:Em.
    + split; [reflexivity | intros _; reflexivity].
    + split.
      * unfold count; cbn. now rewrite Em.
      * apply Z.eqb_neq in Ec, Em. intros [H|H]; contradiction.
Qed.

(** C2 (fails on the code).  Claim: when the logger class or its log
    method cannot be resolved, the diagnostic forwarder is a silent no-op
    and never calls Java with a null method identifier.  In a JVM whose
    class CoreAudioDevice has no static method [log], on an attached
    thread, [MacCoreaudio_log] finds the class, gets a null identifier from
    [GetStaticMethodID], does not test it, and hands it to
    [CallStaticVoidMethod]: the call does not return normally. *)
Theorem MacCoreaudio_log_calls_null_method :
  let run :=
    MacCoreaudio_log hotspot_without_log
      (list_byte_of_string "MacCoreAudio_util: JNI loaded") (loaded true) in
  fst run = None
  /\ count is_null_method_call (trace (snd run)) = 1%nat
  /\ In (EvGetStaticMethodID 100 "log" "([B)V" NULL) (trace (snd run)).
Proof. vm_compute. repeat split. right; right; left. reflexivity. Qed.


(** *** Concrete runs *)

Lemma guard_detaches_only_what_it_attached_witness :
  thread_attached
    (snd (cross hotspot DevicesChanged (registered true))) = true
  /\ thread_attached
       (run hotspot (map Call [Relay samples 4 7 9; DevicesChanged;
                               Relay samples 4 7 9])
          (registered true)) = true.
Proof.
  split.
  - destruct (proj1 (guard_detaches_only_what_it_attached hotspot)
                DevicesChanged (registered true)) as [l [_ [_ A]]].
    exact (proj1 (A eq_refl)).
  - exact (proj1 (proj2 (guard_detaches_only_what_it_attached hotspot)
                    _ (registered true) eq_refl)).
Defined.

Lemma callbackMethod_copies_back_witness :
  fst (MacCoreaudio_callbackMethod hotspot_muting samples 4 7 9 (loaded false))
  = Some [x00; x00; x00; x00]
  /\ fst (MacCoreaudio_callbackMethod hotspot samples 4 7 9 (loaded true))
     = Some samples.
Proof.
  split.
  - refine (proj2 (proj2 (proj2
      (callbackMethod_copies_back hotspot_muting samples 4 7 9 (loaded false)
         eq_refl _ eq_refl _ _ (fun _ => eq_refl) (fun _ => eq_refl)
         (fun _ => eq_refl)))) _ (fun _ => eq_refl)); discriminate.
  - refine (proj1 (proj2 (proj2
      (callbackMethod_copies_back hotspot samples 4 7 9 (loaded true)
         eq_refl _ eq_refl _ _ (fun _ => eq_refl) (fun _ => eq_refl)
         (fun _ => eq_refl)))) (fun _ => eq_refl)); discriminate.
Defined.

Lemma callbackMethod_without_context_witness :
  fst (MacCoreaudio_callbackMethod hotspot_refusing_threads samples 4 7 9
         (loaded false))
  = Some samples.
Proof.
  refine (proj1 (callbackMethod_without_context hotspot_refusing_threads
                   samples 4 7 9 (loaded false) _ eq_refl)).
  discriminate.
Defined.

Lemma initHotplug_idempotent_witness :
  (exists l,
     trace (snd (MacCoreaudio_initHotplug hotspot (registered true)))
     = trace (registered true) ++ l
     /\ count is_registration l = 0%nat)
  /\ (exists l,
        trace (run hotspot [Call InitHotplug; Call InitHotplug] (loaded true))
        = trace (loaded true) ++ l
        /\ count is_registration l = 1%nat).
Proof.
  split.
  - destruct (proj1 (initHotplug_idempotent hotspot) (registered true))
      as [l (T & _ & R & _)].
    + split; discriminate.
    + exists l. split; assumption.
  - destruct (proj1 (proj2 (initHotplug_idempotent hotspot)) (loaded true)
                eq_refl eq_refl)
      as [l (T & _ & R & _)].
    + vm_compute. split; discriminate.
    + exists l. split; assumption.
Defined.

Lemma hotplug_statics_consistent_witness :
  hotplug_consistent
    (run hotspot [Call (OnLoad 5); Call DevicesChanged; Call OnUnload]
       (unloaded false))
  /\ hotplug_consistent
       (run hotspot [OnThread false; Call FreeHotplug; Call InitHotplug]
          (registered true)).
Proof.
  split.
  - apply (proj1 (hotplug_statics_consistent hotspot _)).
  - apply (proj1 (proj2 (hotplug_statics_consistent hotspot _))).
    split; discriminate.
Defined.


(** *** Looking up the callback method *)


(** X10.  [MacCoreaudio_getCallbackMethodID] returns the null
    identifier, with no JNI call at all, for a null callback object; it
    looks no method up when the object has no class; otherwise it
    returns what [GetMethodID] answers for the class of the object, the
    name it is given and the signature [([BI)V]. So a non-null
    identifier belongs to a non-null callback object. The local
    reference to the class, when one is obtained, is deleted exactly
    once. *)
Theorem getCallbackMethodID_lookup env callback callbackFunctionName :
  let r := MacCoreaudio_getCallbackMethodID env callback callbackFunctionName in
  (callback = NULL -> r = (NULL, []))
  /\ (get_object_class env callback = NULL ->
      fst r = NULL /\ count is_GetMethodID (snd r) = 0%nat)
  /\ (fst r <> NULL ->
      callback <> NULL
      /\ get_object_class env callback <> NULL
      /\ fst r = get_method_id env (get_object_class env callback)
                   callbackFunctionName "([BI)V"
      /\ In (EvGetMethodID (get_object_class env callback)
               callbackFunctionName "([BI)V" (fst r)) (snd r))
  /\ (forall c, local_refs_deleted c (snd r) = local_refs_obtained c (snd r)).
Proof.
  cbv zeta. unfold MacCoreaudio_getCallbackMethodID.
  destruct (callback =? NULL) eqn:Ec; cbn [negb].
  - apply Z.eqb_eq in Ec.
    split; [reflexivity|]. split; [now split|].
    split; [intros H; now contradiction H | reflexivity].
  - apply Z.eqb_neq in Ec.
    destruct (get_object_class env callback =? NULL) eqn:Eo; cbn [negb fst snd].
    + pose proof Eo as Eo'. apply Z.eqb_eq in Eo'.
      split; [intros H; now contradiction Ec|]. split; [now split|].
      split; [intros H; now contradiction H|].
      intros c. unfold local_refs_deleted, local_refs_obtained, count.
      cbn. now rewrite Eo.
    + pose proof Eo as Eo'. apply Z.eqb_neq in Eo'.
      split; [intros H; now contradiction Ec|].
      split; [intros H; now contradiction Eo'|].
      split; [intros H; repeat split; try assumption; cbn; tauto|].
      intros c. unfold local_refs_deleted, local_refs_obtained, count.
      cbn. rewrite Eo. cbn.
      destruct (get_object_class env callback =? c); reflexivity.
Qed.

Lemma getCallbackMethodID_lookup_witness :
  fst (MacCoreaudio_getCallbackMethodID objects 7 "readInput") = 60
  /\ local_refs_deleted 50
       (snd (MacCoreaudio_getCallbackMethodID objects 7 "readInput")) = 1%nat.
Proof.
  destruct (getCallbackMethodID_lookup objects 7 "readInput")
    as (_ & _ & H & D).
  split.
  - refine (proj1 (proj2 (proj2 (H _)))). vm_compute. discriminate.
  - rewrite D. reflexivity.
Defined.


(** *** Concrete runs of the further properties *)

Lemma cooperative_hotspot : cooperative hotspot.
Proof.
  repeat split; intros; try reflexivity. cbn. discriminate.
Qed.

Lemma devicesChanged_notifies_once_witness :
  exists l,
    trace (snd (MacCoreaudio_devicesChangedCallbackMethod hotspot
                  (registered false)))
    = trace (registered false) ++ l
    /\ count is_notification l = 1%nat.
Proof.
  destruct (devicesChanged_notifies_once hotspot (registered false))
    as [l (T & _ & _ & H)].
  exists l. split; [exact T|].
  apply H.
  - vm_compute. reflexivity.
  - split; discriminate.
  - intros h. reflexivity.
Defined.

Lemma freeHotplug_unregisters_then_releases_witness :
  exists l,
    trace (snd (MacCoreaudio_freeHotplug hotspot (registered false)))
    = trace (registered false) ++ l
    /\ count is_unregistration l = 1%nat
    /\ In (EvDeleteGlobalRef 101) l.
Proof.
  destruct (freeHotplug_unregisters_then_releases hotspot (registered false))
    as [l (T & U & _ & _ & Hin & Hyes & _)].
  - vm_compute. reflexivity.
  - exists l. split; [exact T|]. split; [exact U|].
    apply Hin, Hyes. intros h. reflexivity.
Defined.

Lemma returning_call_restores_attachment_witness :
  thread_attached (snd (cross hotspot DevicesChanged (registered false)))
  = false.
Proof.
  refine (proj1 (returning_call_restores_attachment hotspot DevicesChanged
                   (registered false) _)).
  vm_compute. reflexivity.
Defined.

Lemma registration_never_doubled_witness :
  registration_tracked
    (run hotspot [Call InitHotplug; OnThread false; Call FreeHotplug;
                  Call InitHotplug]
       (registered true)).
Proof.
  apply (proj2 (registration_never_doubled hotspot _)).
  split; [reflexivity|]. split; [discriminate|]. split; discriminate.
Defined.

Lemma MacCoreaudio_log_forwards_message_witness :
  exists l,
    trace (snd (MacCoreaudio_log hotspot (list_byte_of_string "ready")
                  (loaded true)))
    = trace (loaded true) ++ l
    /\ count is_log_call l = 1%nat.
Proof.
  destruct (proj1 (MacCoreaudio_log_forwards_message hotspot
                     (list_byte_of_string "ready") (loaded true)))
    as [l (T & _ & _ & H)].
  exists l. split; [exact T|].
  apply (H eq_refl 100); [discriminate|].
  vm_compute in T. subst l. cbn. tauto.
Defined.

Lemma callbackMethod_touches_prefix_only_witness :
  exists h B',
    fst (MacCoreaudio_callbackMethod hotspot_muting samples 2 7 9
           (loaded false)) = Some B'
    /\ B' = java_callback hotspot_muting h 7 9 (firstn 2 samples) 2
            ++ skipn 2 samples.
Proof.
  destruct (callbackMethod_touches_prefix_only hotspot_muting samples 2 7 9
              (loaded false))
    as (h & B' & E & P & _).
  - discriminate.
  - reflexivity.
  - intros h. reflexivity.
  - intros h. reflexivity.
  - repeat split; try discriminate; cbn; lia.
  - exists h, B'. split; [exact E | exact P].
Defined.

Lemma cooperative_calls_return_witness :
  fst (cross hotspot (Relay samples 4 7 9) (loaded false)) = Some tt.
Proof.
  apply (proj2 (proj2 (cooperative_calls_return hotspot cooperative_hotspot))).
  - discriminate.
  - repeat split; try discriminate; cbn; lia.
Defined.

Lemma load_unload_round_trip_witness :
  fst (JNI_OnLoad hotspot 5 (unloaded false)) = Some JNI_VERSION_1_6
  /\ fst (JNI_OnUnload hotspot (snd (JNI_OnLoad hotspot 5 (unloaded false))))
     = Some tt.
Proof.
  destruct (load_unload_round_trip hotspot 5 (unloaded false)
              cooperative_hotspot eq_refl eq_refl) as (L & U & _).
  split; [exact L | exact U].
Defined.



Lemma initHotplug_missing_entry_point_witness :
  exists l,
    trace (snd (MacCoreaudio_initHotplug hotspot_without_target (loaded true)))
    = trace (loaded true) ++ l
    /\ globals_kept (loaded true)
         (snd (MacCoreaudio_initHotplug hotspot_without_target (loaded true)))
    /\ count is_NewGlobalRef l = 1%nat
    /\ count is_DeleteGlobalRef l = 0%nat.
Proof.
  destruct (initHotplug_missing_entry_point hotspot_without_target
              (loaded true))
    as [l (T & K & _ & D & _ & H)].
  - intros h clazz sig. reflexivity.
  - exists l. split; [exact T|]. split; [exact K|]. split; [|exact D].
    apply H; try reflexivity.
    + intros h name. cbn. discriminate.
    + intros h obj Hobj. cbn. discriminate.
Defined.
End CoreAudioSpec.

(** ** JavaLogger *)

Module JavaLoggerSpec.
Import JavaLogger.

Lemma substring_prefix n : forall s,
  (String.length (substring 0 n s) <= n)%nat
  /\ (exists rest, s = substring 0 n s ++ rest)%string
  /\ ((String.length s <= n)%nat -> substring 0 n s = s).
Proof.
  induction n as [|n IH]; intros s.
  - destruct s; cbn; (split; [lia|]); (split; [eexists; reflexivity|]);
      intros H; [reflexivity | cbn in H; lia].
  - destruct s as [|c s]; cbn.
    + split; [lia|]. split; [now exists EmptyString | reflexivity].
    + destruct (IH s) as (L & [rest P] & F).
      split; [lia|]. split.
      * exists rest. now rewrite <- P.
      * intros H. rewrite F by lia. reflexivity.
Qed.

Lemma c_str_is_prefix s : exists rest, (s = c_str s ++ rest)%string.
Proof.
  induction s as [|c s [rest IH]]; [now exists EmptyString|].
  cbn [c_str]. destruct (Ascii.eqb c Ascii.zero).
  - now exists (String c s).
  - exists rest. cbn. now rewrite <- IH.
Qed.

Lemma vsnprintf_cut size expansion :
  (String.length (vsnprintf size expansion) <= size - 1)%nat
  /\ (exists rest, expansion = vsnprintf size expansion ++ rest)%string
  /\ ((String.length expansion <= size - 1)%nat ->
      c_str expansion = expansion ->
      vsnprintf size expansion = expansion).
Proof.
  unfold vsnprintf.
  destruct (substring_prefix (size - 1) (c_str expansion)) as (L & [r1 P] & F).
  split; [assumption|]. split.
  - destruct (c_str_is_prefix expansion) as [r2 Q].
    exists (r1 ++ r2)%string. rewrite Q at 1. rewrite P at 1.
    clear. generalize (substring 0 (size - 1) (c_str expansion)).
    intros s. induction s as [|c s IH]; [reflexivity|].
    cbn. now rewrite IH.
  - intros H E. rewrite E in *. now apply F.
Qed.

(** What [log] lets through. *)
Lemma log_output env logger level message :
  (count is_call (log env logger level message) <= 1)%nat
  /\ count is_null_call (log env logger level message) = 0%nat
  /\ (forall o m,
        In o (log env logger level message) -> message_of o = Some m ->
        m = message
        /\ o = CallVoidMethod logger
                 (GetMethodID env (GetObjectClass env logger) level
                    "(Ljava/lang/Object;)V") m)
  /\ (GetObjectClass env logger <> 0 ->
      GetMethodID env (GetObjectClass env logger) level
        "(Ljava/lang/Object;)V" <> 0 ->
      log env logger level message
      = [CallVoidMethod logger
           (GetMethodID env (GetObjectClass env logger) level
              "(Ljava/lang/Object;)V") message]).
Proof.
  unfold log.
  destruct (GetObjectClass env logger =? 0) eqn:Ec.
  { apply Z.eqb_eq in Ec. split; [cbn; lia|]. split; [reflexivity|].
    split; [|intros H; now contradiction H].
    intros o m [<-|[<-|[]]]; discriminate. }
  destruct (GetMethodID env _ level _ =? 0) eqn:Em.
  { apply Z.eqb_eq in Em. split; [cbn; lia|]. split; [reflexivity|].
    split; [|intros _ H; now contradiction H].
    intros o m [<-|[<-|[]]]; discriminate. }
  split; [cbn; lia|]. split; [unfold count; cbn; now rewrite Em|].
  split; [|reflexivity].
  intros o m [<-|[]] H. cbn in H. injection H as <-. now split.
Qed.

(** X8.  Whatever the level, a message reaches the Java logger at most
    once, through the method looked up under the name of the level,
    never through a null method, and cut to at most 254 characters: what
    Java receives is a prefix of the expansion of the format. A message
    of at most 254 characters goes through unchanged when the class and
    the method are found. *)
Theorem level_methods_truncate name method env logger expansion :
  In (name, method) level_methods ->
  let out := method env logger expansion in
  (count is_call out <= 1)%nat
  /\ count is_null_call out = 0%nat
  /\ (forall o m,
        In o out -> message_of o = Some m ->
        (String.length m <= 254)%nat
        /\ (exists rest, expansion = m ++ rest)%string
        /\ o = CallVoidMethod logger
                 (GetMethodID env (GetObjectClass env logger) name
                    "(Ljava/lang/Object;)V") m)
  /\ ((String.length expansion <= 254)%nat ->
      c_str expansion = expansion ->
      GetObjectClass env logger <> 0 ->
      GetMethodID env (GetObjectClass env logger) name
        "(Ljava/lang/Object;)V" <> 0 ->
      out = [CallVoidMethod logger
               (GetMethodID env (GetObjectClass env logger) name
                  "(Ljava/lang/Object;)V") expansion]).
Proof.
  intros Hin.
  assert (E : method env logger expansion
              = log env logger name (vsnprintf 255 expansion)).
  { cbn in Hin.
    repeat (destruct Hin as [Hin|Hin];
            [injection Hin as <- <-; reflexivity|]).
    contradiction. }
  cbv zeta. rewrite E. clear E Hin.
  destruct (log_output env logger name (vsnprintf 255 expansion))
    as (C & N & M & F).
  destruct (vsnprintf_cut 255 expansion) as (L & P & U).
  split; [assumption|]. split; [assumption|]. split.
  - intros o m Ho Hm. destruct (M o m Ho Hm) as [-> ->].
    split; [exact L|]. split; [exact P | reflexivity].
  - intros Hl Hc Hcls Hmid. rewrite (F Hcls Hmid), (U Hl Hc). reflexivity.
Qed.

Lemma level_methods_truncate_witness :
  In ("warn", warn) level_methods
  /\ warn logging 3 "no device"
     = [CallVoidMethod 3 4 "no device"].
Proof.
  split; [cbn; tauto|].
  refine (proj2 (proj2 (proj2
    (level_methods_truncate "warn" warn logging 3 "no device" _))) _ _ _ _).
  - cbn; tauto.
  - cbn; lia.
  - reflexivity.
  - cbn; lia.
  - cbn; lia.
Defined.

End JavaLoggerSpec.
